(** * The actor core of a cluster node: [cluster/node/actor.go] and
      [cluster/node/proxy.go]

    The development embeds the two Go files as functions over explicit state.

    - A Go channel is a record with a buffer, a capacity and a closed bit; a
      send can return, block, or panic, and so can every method built on it.
    - A [Context] is a reference into a store of request envelopes: the same
      envelope can sit in a mailbox twice, and [Next] mutates it in place.
    - Handlers and submitted callbacks are user code.  They are named by
      numbers in the tables and queues, and their meaning is a parameter of
      the worker: a function on the whole world that also says whether the
      call faulted.  The finalizer attached to a context is user code too,
      and a parameter in the same way.
    - Every method is one atomic step.  The read/write lock of the actor only
      serves to make the steps atomic and has no field here.
    - Pointer and interface arguments are taken to be non-nil, and the maps
      of an actor to be allocated.
    - Route, event and user ids are integers that are only compared, never
      computed with; they are in [Z].
    - An effect log records the calls whose order or number matters. *)

From stdpp Require Import gmap strings list fin_maps.
From Stdlib Require Import ZArith.

Local Open Scope Z_scope.

(** How a call ends: it returns, the calling goroutine stays blocked on a
    channel send, or it panics. *)
Inductive Outcome := Returned | Blocked | Panicked.

Global Instance Outcome_eq_dec : EqDecision Outcome.
Proof. solve_decision. Defined.

(** ** Go channels *)
Module Chan.

Record t (A : Type) := mk { buf : list A; cap : nat; closed : bool }.
Arguments mk {A} _ _ _.
Arguments buf {A} _.
Arguments cap {A} _.
Arguments closed {A} _.

Inductive Recv (A : Type) :=
| Got (x : A)      (* [x, true]: a value was dequeued *)
| Closed           (* [_, false]: the channel is closed and drained *)
| NotReady.        (* the receive case is not ready *)
Arguments Got {A} _.
Arguments Closed {A}.
Arguments NotReady {A}.

Section Ops.
Context {A : Type}.

Definition make (n : nat) : t A := mk [] n false.

Definition has_room (ch : t A) : bool :=
  bool_decide (length (buf ch) < cap ch)%nat.

(** [ch <- x] *)
Definition send (x : A) (ch : t A) : t A * Outcome :=
  if closed ch then (ch, Panicked)
  else if has_room ch then (mk (buf ch ++ [x]) (cap ch) false, Returned)
  else (ch, Blocked).

(** [close(ch)] *)
Definition close (ch : t A) : t A * Outcome :=
  if closed ch then (ch, Panicked)
  else (mk (buf ch) (cap ch) true, Returned).

(** [x, ok := <-ch] *)
Definition recv (ch : t A) : t A * Recv A :=
  match buf ch with
  | x :: rest => (mk rest (cap ch) (closed ch), Got x)
  | [] => (ch, if closed ch then Closed else NotReady)
  end.
End Ops.

End Chan.

(** ** Contexts *)

Module Context.

(** [ctx.Kind()] *)
Inductive Kind := Message | Event.

Global Instance Kind_eq_dec : EqDecision Kind.
Proof. solve_decision. Defined.

(** Modelled from the spec: the request envelope behind the [Context]
    interface, whose declaration and methods are not among the sources.
    The fields are those of the spec's data model that the actor reads or
    writes: kind, route or event identifier, the version (a generation
    counter) and the cancel signal. *)
Record request := mk {
  kind : Kind;
  route : Z;
  event : Z;
  version : Z;
  cancelled : bool;
}.

Definition zero : request := mk Message 0 0 0 false.

(** Modelled from the spec: [incrVersion()], bump generation on each
    delivery attempt. *)
Definition incrVersion (r : request) : request :=
  mk (kind r) (route r) (event r) (version r + 1) (cancelled r).

(** Modelled from the spec: [loadVersion()], read generation. *)
Definition loadVersion (r : request) : Z := version r.

(** Modelled from the spec: [Cancel()], mark the context as superseded. *)
Definition Cancel (r : request) : request :=
  mk (kind r) (route r) (event r) (version r) true.

(** Modelled from the spec: the gate of [compareVersionExecDefer(v)] and of
    [compareVersionRecycle(v)], which act only if [v] still equals the
    current version. *)
Definition versionIs (v : Z) (r : request) : bool :=
  bool_decide (v = version r).

End Context.

(** ** Actors *)

Definition CtxRef := nat.
Definition RouteHandler := nat.
Definition EventHandler := nat.

Definition unstart : Z := 0.
Definition started : Z := 1.
Definition destroyed : Z := 2.

(** The values sent on [fnChan]: a callback given to [Invoke], or one of the
    two closures built by [AddRouteHandler] and [AddEventHandler] on a
    started actor. *)
Inductive Fn :=
| FnInvoke (fn : nat)
| FnAddRoute (route : Z) (handler : RouteHandler)
| FnAddEvent (event : Z) (handler : EventHandler).

Global Instance Fn_eq_dec : EqDecision Fn.
Proof. solve_decision. Defined.

Record Processor := { processor_Kind : string }.

Record Actor := mkActor {
  opts_id : string;
  state : Z;
  routes : gmap Z RouteHandler;
  events : gmap Z EventHandler;
  processor : Processor;
  mailbox : Chan.t CtxRef;
  fnChan : Chan.t Fn;
  binds : gset Z;
}.

(** The two shared tables of the scheduler that the actor touches:
    [scheduler.routes] (route to kind) and the relation table handed to the
    callback of [batchUnbindActor] (user to kind to actor, the actor given by
    its PID). *)
Module Scheduler.
Record t := mk {
  routes : gmap Z string;
  relations : gmap Z (gmap string string);
}.
End Scheduler.

(** The effect log. *)
Inductive Effect :=
| EIncrVersion (c : CtxRef)
| ECancel (c : CtxRef)
| ESendMailbox (c : CtxRef)
| ESendFn (f : Fn)
| EProcessorDestroy
| EBatchUnbind (uids : list Z) (kind : string)
| ECloseMailbox
| ECloseFnChan
| ERouteHandler (h : RouteHandler) (c : CtxRef)
| EEventHandler (h : EventHandler) (c : CtxRef)
| EFn (f : Fn)
| EFaultLogged
| EExecDefer (c : CtxRef)
| ERecycle (c : CtxRef).

Global Instance Effect_eq_dec : EqDecision Effect.
Proof. solve_decision. Defined.

Record World := mkWorld {
  actor : Actor;
  scheduler : Scheduler.t;
  ctxs : gmap CtxRef Context.request;
  log : list Effect;
}.

(** *** Field updates *)

Definition with_actor (a : Actor) (w : World) : World :=
  mkWorld a (scheduler w) (ctxs w) (log w).

Definition with_scheduler (s : Scheduler.t) (w : World) : World :=
  mkWorld (actor w) s (ctxs w) (log w).

Definition emit (e : Effect) (w : World) : World :=
  mkWorld (actor w) (scheduler w) (ctxs w) (log w ++ [e]).

Definition set_state (s : Z) (a : Actor) : Actor :=
  mkActor (opts_id a) s (routes a) (events a) (processor a)
          (mailbox a) (fnChan a) (binds a).

Definition set_routes (m : gmap Z RouteHandler) (a : Actor) : Actor :=
  mkActor (opts_id a) (state a) m (events a) (processor a)
          (mailbox a) (fnChan a) (binds a).

Definition set_events (m : gmap Z EventHandler) (a : Actor) : Actor :=
  mkActor (opts_id a) (state a) (routes a) m (processor a)
          (mailbox a) (fnChan a) (binds a).

Definition set_mailbox (ch : Chan.t CtxRef) (a : Actor) : Actor :=
  mkActor (opts_id a) (state a) (routes a) (events a) (processor a)
          ch (fnChan a) (binds a).

Definition set_fnChan (ch : Chan.t Fn) (a : Actor) : Actor :=
  mkActor (opts_id a) (state a) (routes a) (events a) (processor a)
          (mailbox a) ch (binds a).

Definition set_binds (b : gset Z) (a : Actor) : Actor :=
  mkActor (opts_id a) (state a) (routes a) (events a) (processor a)
          (mailbox a) (fnChan a) b.

(** *** The context store

    Every reference denotes an envelope; one that was never written holds the
    zero value. *)

Definition ctx_get (w : World) (c : CtxRef) : Context.request :=
  default Context.zero (ctxs w !! c).

Definition ctx_upd (f : Context.request → Context.request) (c : CtxRef)
    (w : World) : World :=
  mkWorld (actor w) (scheduler w) (<[c := f (ctx_get w c)]> (ctxs w)) (log w).

(** [ctx.incrVersion()], on the envelope behind [c]. *)
Definition incrVersion (c : CtxRef) (w : World) : World :=
  emit (EIncrVersion c) (ctx_upd Context.incrVersion c w).

(** [ctx.loadVersion()] *)
Definition loadVersion (c : CtxRef) (w : World) : Z :=
  Context.loadVersion (ctx_get w c).

(** [ctx.Cancel()] *)
Definition Cancel (c : CtxRef) (w : World) : World :=
  emit (ECancel c) (ctx_upd Context.Cancel c w).

(** Modelled from the spec: [compareVersionExecDefer(v)] runs the attached
    finalizer only if [v] still equals the current version.  The finalizer is
    user code: [run_defer c] is what the finalizer attached to [c] does to the
    world (nothing, if none is attached), and it may deliver [c] again.  That
    it was run is recorded in the log first. *)
Definition compareVersionExecDefer (run_defer : CtxRef → World → World)
    (c : CtxRef) (v : Z) (w : World) : World :=
  if Context.versionIs v (ctx_get w c) then run_defer c (emit (EExecDefer c) w)
  else w.

(** Modelled from the spec: [compareVersionRecycle(v)] returns the context to
    its pool only if [v] still equals the current version, and leaves it
    otherwise.  The return to the pool is recorded in the log. *)
Definition compareVersionRecycle (c : CtxRef) (v : Z) (w : World) : World :=
  if Context.versionIs v (ctx_get w c) then emit (ERecycle c) w else w.

(** *** Identity *)

Definition ID (a : Actor) : string := opts_id a.
Definition Kind (a : Actor) : string := processor_Kind (processor a).
Definition PID (a : Actor) : string := Kind a +:+ "/" +:+ ID a.

(** *** Sends on the two channels of the actor *)

Definition send_mailbox (c : CtxRef) (w : World) : World * Outcome :=
  match Chan.send c (mailbox (actor w)) with
  | (ch, Returned) =>
      (emit (ESendMailbox c) (with_actor (set_mailbox ch (actor w)) w), Returned)
  | (_, o) => (w, o)
  end.

Definition send_fnChan (f : Fn) (w : World) : World * Outcome :=
  match Chan.send f (fnChan (actor w)) with
  | (ch, Returned) =>
      (emit (ESendFn f) (with_actor (set_fnChan ch (actor w)) w), Returned)
  | (_, o) => (w, o)
  end.

(** *** Methods called from outside the worker *)

(** [Invoke] *)
Definition Invoke (fn : nat) (w : World) : World * Outcome :=
  if bool_decide (state (actor w) ≠ started) then (w, Returned)
  else send_fnChan (FnInvoke fn) w.

(** [AddRouteHandler] *)
Definition AddRouteHandler (route : Z) (handler : RouteHandler) (w : World)
    : World * Outcome :=
  if bool_decide (state (actor w) = unstart) then
    (with_actor (set_routes (<[route := handler]> (routes (actor w))) (actor w)) w,
     Returned)
  else if bool_decide (state (actor w) = started) then
    send_fnChan (FnAddRoute route handler) w
  else (w, Returned).

(** [AddEventHandler] *)
Definition AddEventHandler (event : Z) (handler : EventHandler) (w : World)
    : World * Outcome :=
  if bool_decide (state (actor w) = unstart) then
    (with_actor (set_events (<[event := handler]> (events (actor w))) (actor w)) w,
     Returned)
  else if bool_decide (state (actor w) = started) then
    send_fnChan (FnAddEvent event handler) w
  else (w, Returned).

(** [Next] *)
Definition Next (c : CtxRef) (w : World) : World * Outcome :=
  if bool_decide (state (actor w) ≠ started) then (w, Returned)
  else send_mailbox c (Cancel c (incrVersion c w)).

(** [bindUser] *)
Definition bindUser (uid : Z) (a : Actor) : Actor :=
  set_binds ({[uid]} ∪ binds a) a.

(** [unbindUser]: [LoadAndDelete] reports whether the key was present. *)
Definition unbindUser (uid : Z) (a : Actor) : Actor * bool :=
  (set_binds (binds a ∖ {[uid]}) a, bool_decide (uid ∈ binds a)).

(** *** Destroy *)

(** [delete(relations[uid], kind)]: deleting from the nil map of an absent
    user does nothing, and an emptied inner map stays in the table. *)
Definition deleteRelation (kind : string) (uid : Z)
    (relations : gmap Z (gmap string string)) : gmap Z (gmap string string) :=
  match relations !! uid with
  | Some m => <[uid := delete kind m]> relations
  | None => relations
  end.

(** The callback handed to [batchUnbindActor]: [a.binds.Range] visits every
    bound user once and deletes the entry of the actor's kind. *)
Definition unbindAll (a : Actor) (relations : gmap Z (gmap string string))
    : gmap Z (gmap string string) :=
  foldr (deleteRelation (Kind a)) relations (elements (binds a)).

(** Modelled from the spec: [batchUnbindActor(fn)] of the scheduler (not among
    the sources) runs [fn] on the relation table under one critical
    section. *)
Definition batchUnbindActor
    (fn : gmap Z (gmap string string) → gmap Z (gmap string string))
    (w : World) : World :=
  with_scheduler
    (Scheduler.mk (Scheduler.routes (scheduler w))
                  (fn (Scheduler.relations (scheduler w)))) w.

Definition close_mailbox (w : World) : World * Outcome :=
  match Chan.close (mailbox (actor w)) with
  | (ch, Returned) =>
      (emit ECloseMailbox (with_actor (set_mailbox ch (actor w)) w), Returned)
  | (_, o) => (w, o)
  end.

Definition close_fnChan (w : World) : World * Outcome :=
  match Chan.close (fnChan (actor w)) with
  | (ch, Returned) =>
      (emit ECloseFnChan (with_actor (set_fnChan ch (actor w)) w), Returned)
  | (_, o) => (w, o)
  end.

(** Sequencing of steps that may block or panic. *)
Definition and_then (r : World * Outcome) (k : World → World * Outcome)
    : World * Outcome :=
  match r with
  | (w, Returned) => k w
  | _ => r
  end.

Notation "r ;;; k" := (and_then r k) (at level 61, left associativity).

(** The part of [Destroy] that runs after the compare-and-swap succeeded and
    before the lock is taken: the processor's cleanup and the batched
    removal. *)
Definition Destroy_unbind (w : World) : World :=
  let w1 := with_actor (set_state destroyed (actor w)) w in
  let w2 := emit EProcessorDestroy w1 in
  emit (EBatchUnbind (elements (binds (actor w2))) (Kind (actor w2)))
       (batchUnbindActor (unbindAll (actor w2)) w2).

(** The part of [Destroy] under the lock, for channels that are still open:
    the mailbox is closed, then the control queue. *)
Definition closed_down (w : World) : World :=
  let w1 :=
    emit ECloseMailbox
      (with_actor
         (set_mailbox (Chan.mk (Chan.buf (mailbox (actor w)))
                               (Chan.cap (mailbox (actor w))) true) (actor w)) w) in
  emit ECloseFnChan
    (with_actor
       (set_fnChan (Chan.mk (Chan.buf (fnChan (actor w1)))
                            (Chan.cap (fnChan (actor w1))) true) (actor w1)) w1).

(** [Destroy] *)
Definition Destroy (w : World) : World * Outcome :=
  if bool_decide (state (actor w) = started) then
    close_mailbox (Destroy_unbind w) ;;; close_fnChan
  else (w, Returned).

(** [n] calls of [Destroy] in a row. *)
Fixpoint Destroy_times (n : nat) (w : World) : World * Outcome :=
  match n with
  | O => (w, Returned)
  | S n' => Destroy w ;;; Destroy_times n'
  end.

(** *** The worker *)

Section Worker.

(** The meaning of user code: the world it leaves behind and whether it
    faulted. *)
Variable run_route : RouteHandler → CtxRef → World → World * bool.
Variable run_event : EventHandler → CtxRef → World → World * bool.
Variable run_defer : CtxRef → World → World.
Variable run_fn : nat → World → World * bool.

(** Modelled from the spec: [xcall.Call(fn)] (package [utils/xcall], not
    among the sources) runs [fn]; a fault is caught and logged. *)
Definition xcall_Call (fn : World → World * bool) (w : World) : World :=
  let (w', faulted) := fn w in
  if faulted then emit EFaultLogged w' else w'.

(** The handler lookup and call of the mailbox case. *)
Definition handle (c : CtxRef) (w : World) : World :=
  if bool_decide (Context.kind (ctx_get w c) = Context.Event) then
    match events (actor w) !! Context.event (ctx_get w c) with
    | Some handler =>
        xcall_Call (λ w0, run_event handler c (emit (EEventHandler handler c) w0)) w
    | None => w
    end
  else
    match routes (actor w) !! Context.route (ctx_get w c) with
    | Some handler =>
        xcall_Call (λ w0, run_route handler c (emit (ERouteHandler handler c) w0)) w
    | None => w
    end.

(** The body of the mailbox case for a dequeued context. *)
Definition dispatch_ctx (c : CtxRef) (w : World) : World :=
  let version := loadVersion c w in
  let w1 := handle c w in
  let w2 := compareVersionExecDefer run_defer c version w1 in
  compareVersionRecycle c version w2.

(** A value taken from [fnChan], called. *)
Definition run_Fn (f : Fn) (w : World) : World * bool :=
  match f with
  | FnInvoke fn => run_fn fn w
  | FnAddRoute route handler =>
      let a := set_routes (<[route := handler]> (routes (actor w))) (actor w) in
      let s := Scheduler.mk (<[route := Kind a]> (Scheduler.routes (scheduler w)))
                            (Scheduler.relations (scheduler w)) in
      (with_scheduler s (with_actor a w), false)
  | FnAddEvent event handler =>
      (with_actor (set_events (<[event := handler]> (events (actor w))) (actor w)) w,
       false)
  end.

(** Which case of the [select] fires. *)
Inductive Pick := PickMailbox | PickFnChan.

Inductive Step :=
| Continue (w : World)   (* the loop goes round again *)
| Exit (w : World)       (* the goroutine returns *)
| NotReady.              (* the picked case cannot fire *)

(** One round of the [for]/[select] loop of [dispatch]. *)
Definition dispatch_step (p : Pick) (w : World) : Step :=
  match p with
  | PickMailbox =>
      match Chan.recv (mailbox (actor w)) with
      | (ch, Chan.Got c) =>
          Continue (dispatch_ctx c (with_actor (set_mailbox ch (actor w)) w))
      | (_, Chan.Closed) => Exit w
      | (_, Chan.NotReady) => NotReady
      end
  | PickFnChan =>
      match Chan.recv (fnChan (actor w)) with
      | (ch, Chan.Got f) =>
          Continue (xcall_Call (λ w0, run_Fn f (emit (EFn f) w0))
                               (with_actor (set_fnChan ch (actor w)) w))
      | (_, Chan.Closed) => Exit w
      | (_, Chan.NotReady) => NotReady
      end
  end.

(** [dispatch]: the loop under a schedule of picks; a pick that cannot fire
    is passed over.  The result says whether the goroutine has returned. *)
Fixpoint dispatch (picks : list Pick) (w : World) : World * bool :=
  match picks with
  | [] => (w, false)
  | p :: rest =>
      match dispatch_step p w with
      | Continue w' => dispatch rest w'
      | Exit w' => (w', true)
      | NotReady => dispatch rest w
      end
  end.

End Worker.

(** *** Sequences of calls and the invariant of the two channels *)

(** A series of [AddRouteHandler] calls, in call order; each call returns
    before the next is made. *)
Fixpoint AddRouteHandlers (calls : list (Z * RouteHandler)) (w : World)
    : World * Outcome :=
  match calls with
  | [] => (w, Returned)
  | (route, handler) :: rest =>
      AddRouteHandler route handler w ;;; AddRouteHandlers rest
  end.

(** The last handler written for [route] by a series of calls, if any call
    wrote it. *)
Fixpoint last_write (calls : list (Z * RouteHandler)) (route : Z)
    : option RouteHandler :=
  match calls with
  | [] => None
  | (r, h) :: rest =>
      match last_write rest route with
      | Some h' => Some h'
      | None => if bool_decide (r = route) then Some h else None
      end
  end.

(** The last-write-wins table of a series of calls, as the specification
    words it: the last handler written if there is one, the entry of the
    table before the calls otherwise. *)
Definition last_write_wins (calls : list (Z * RouteHandler))
    (before : gmap Z RouteHandler) (route : Z) : option RouteHandler :=
  match last_write calls route with
  | Some h => Some h
  | None => before !! route
  end.

(** A series of delivery attempts, one [Next] after the other, whatever the
    outcome of each. *)
Fixpoint Nexts (cs : list CtxRef) (w : World) : World :=
  match cs with
  | [] => w
  | c :: rest => Nexts rest (fst (Next c w))
  end.

(** How often [c] occurs in a series. *)
Fixpoint attempts (c : CtxRef) (cs : list CtxRef) : nat :=
  match cs with
  | [] => O
  | c' :: rest => ((if bool_decide (c' = c) then 1 else 0) + attempts c rest)%nat
  end.

(** The world after [c] was taken from the head of the mailbox. *)
Definition dequeued (rest : list CtxRef) (w : World) : World :=
  with_actor
    (set_mailbox (Chan.mk rest (Chan.cap (mailbox (actor w)))
                          (Chan.closed (mailbox (actor w)))) (actor w)) w.

(** One write of the route table. *)
Definition write_route (m : gmap Z RouteHandler) (call : Z * RouteHandler)
    : gmap Z RouteHandler :=
  <[call.1 := call.2]> m.

(** The world after [f] was sent on the control queue. *)
Definition queued (f : Fn) (w : World) : World :=
  emit (ESendFn f)
    (with_actor
       (set_fnChan (Chan.mk (Chan.buf (fnChan (actor w)) ++ [f])
                            (Chan.cap (fnChan (actor w))) false)
                   (actor w)) w).

(** The channels are closed exactly when the actor is destroyed: only
    [Destroy] closes them, in the step that sets the state. *)
Definition wf (w : World) : Prop :=
  Chan.closed (mailbox (actor w)) = bool_decide (state (actor w) = destroyed)
  ∧ Chan.closed (fnChan (actor w)) = bool_decide (state (actor w) = destroyed).

(** The kind under which a user is related to some actor, read off the
    relation table. *)
Definition related (relations : gmap Z (gmap string string)) (uid : Z)
    (kind : string) : option string :=
  relations !! uid ≫= (λ m, m !! kind).

(** ** The proxy *)

(** [error]: [None] is [nil]. *)
Definition error := option string.

(** [interface{}] payloads are opaque. *)
Definition any := string.

(** [context.Context], only ever passed on. *)
Definition GoContext := nat.

Module session.
Inductive Kind := Conn | User.
End session.

(** The argument records of package [internal/link], with the fields the
    proxy fills in. *)
Module link.
Record Message := mkMessage { Seq : Z; Route : Z; Data : any }.
Record PushArgs := mkPushArgs {
  push_GID : string;
  push_Kind : session.Kind;
  push_Target : Z;
  push_Message : Message;
}.
Record DeliverArgs := mkDeliverArgs {
  deliver_NID : string;
  deliver_UID : Z;
  deliver_Message : Message;
}.
End link.

(** [cluster.DeliverArgs]; its message is the link's message type. *)
Module cluster.
Record DeliverArgs := mkDeliverArgs {
  NID : string;
  UID : Z;
  Message : link.Message;
}.
End cluster.

(** The fields of [Request] that [Response] reads. *)
Record Request := mkRequest {
  GID : string;
  NID : string;
  CID : Z;
  UID : Z;
  Message : link.Message;
}.

(** The arguments of [router.deliver]. *)
Record routerDeliverArgs := mkRouterDeliverArgs {
  rd_gid : string;
  rd_nid : string;
  rd_cid : Z;
  rd_uid : Z;
  rd_seq : Z;
  rd_route : Z;
  rd_data : any;
}.

(** The calls that leave the proxy, in order.  A call of [router.deliver]
    carries what the local route resolution came to. *)
Inductive Call :=
| LinkPush (ctx : GoContext) (args : link.PushArgs)
| LinkDeliver (ctx : GoContext) (args : link.DeliverArgs)
| RouterDeliver (args : routerDeliverArgs) (result : error).

(** The collaborators of the proxy: the id of its node, what the link
    answers, and what the router's local resolution comes to. *)
Record Proxy := mkProxy {
  node_opts_id : string;
  link_Push : GoContext → link.PushArgs → error;
  link_Deliver : GoContext → link.DeliverArgs → error;
  router_deliver : routerDeliverArgs → error;
}.

Module ProxyOps.

(** [GetNodeID] *)
Definition GetNodeID (p : Proxy) : string := node_opts_id p.

(** [Push] *)
Definition Push (p : Proxy) (ctx : GoContext) (args : link.PushArgs)
    : list Call * error :=
  ([LinkPush ctx args], link_Push p ctx args).

(** [Deliver] *)
Definition Deliver (p : Proxy) (ctx : GoContext) (args : cluster.DeliverArgs)
    : list Call * error :=
  if bool_decide (cluster.NID args ≠ GetNodeID p) then
    let largs := link.mkDeliverArgs (cluster.NID args) (cluster.UID args)
                                    (cluster.Message args) in
    ([LinkDeliver ctx largs], link_Deliver p ctx largs)
  else
    let rargs := mkRouterDeliverArgs "" (cluster.NID args) 0 (cluster.UID args)
                   (link.Seq (cluster.Message args))
                   (link.Route (cluster.Message args))
                   (link.Data (cluster.Message args)) in
    ([RouterDeliver rargs (router_deliver p rargs)], None).

(** [Response] *)
Definition Response (p : Proxy) (ctx : GoContext) (req : Request) (message : any)
    : list Call * error :=
  if bool_decide (GID req ≠ "") then
    let args := link.mkPushArgs (GID req) session.Conn (CID req)
                  (link.mkMessage (link.Seq (Message req))
                                  (link.Route (Message req)) message) in
    ([LinkPush ctx args], link_Push p ctx args)
  else if bool_decide (NID req ≠ "") then
    let args := link.mkDeliverArgs (NID req) (UID req)
                  (link.mkMessage (link.Seq (Message req))
                                  (link.Route (Message req)) message) in
    ([LinkDeliver ctx args], link_Deliver p ctx args)
  else ([], None).

(** How many calls of the link's [Deliver] a call list holds. *)
Definition is_LinkDeliver (c : Call) : bool :=
  match c with LinkDeliver _ _ => true | _ => false end.

Definition is_LinkCall (c : Call) : bool :=
  match c with RouterDeliver _ _ => false | _ => true end.

Definition is_RouterDeliver (c : Call) : bool :=
  match c with RouterDeliver _ _ => true | _ => false end.

(** The message [Response] builds: sequence number and route of the request,
    the reply as payload. *)
Definition reply (req : Request) (message : any) : link.Message :=
  link.mkMessage (link.Seq (Message req)) (link.Route (Message req)) message.

(** What [Deliver] hands to the router for a local target. *)
Definition local_args (args : cluster.DeliverArgs) : routerDeliverArgs :=
  mkRouterDeliverArgs "" (cluster.NID args) 0 (cluster.UID args)
    (link.Seq (cluster.Message args)) (link.Route (cluster.Message args))
    (link.Data (cluster.Message args)).

(** A link that accepts everything and a router whose local resolution
    always fails; the node is ["n1"]. *)
Definition proxy1 : Proxy :=
  mkProxy "n1" (λ _ _, None) (λ _ _, None) (λ _, Some "route not found").

Definition hello : link.Message := link.mkMessage 7 10 "hello".

(** [context.Background()] *)
Definition bg : GoContext := 0%nat.

End ProxyOps.

(** ** Concrete worlds used by the examples *)

Definition room : Processor := {| processor_Kind := "room" |}.

(** An actor of kind ["room"], id ["1"], with empty tables, in the given
    state, its two channels open with the given capacity. *)
Definition actor0 (st : Z) (n : nat) : Actor :=
  mkActor "1" st ∅ ∅ room (Chan.make n) (Chan.make n) ∅.

Definition world0 (st : Z) (n : nat) : World :=
  mkWorld (actor0 st n) (Scheduler.mk ∅ ∅) ∅ [].

(** User code that does nothing and does not fault. *)
Definition idle_handler (h : nat) (c : CtxRef) (w : World) : World * bool :=
  (w, false).

Definition idle_fn (fn : nat) (w : World) : World * bool := (w, false).

(** A finalizer that does nothing. *)
Definition idle_defer (c : CtxRef) (w : World) : World := w.

(** A finalizer that passes its context on to the same actor with [Next]. *)
Definition forwarding_defer (c : CtxRef) (w : World) : World := fst (Next c w).

(** A started actor of kind ["room"] bound to user 42, the relation table
    naming it for that user. *)
Definition world42 : World :=
  mkWorld (bindUser 42 (actor0 started 4))
          (Scheduler.mk ∅ {[ 42 := {[ "room" := "room/1" ]} ]}) ∅ [].

(** A handler that faults at once. *)
Definition faulty_handler (h : nat) (c : CtxRef) (w : World) : World * bool :=
  (w, true).

(** A handler that passes its context on to the same actor with [Next]. *)
Definition forwarding_handler (h : nat) (c : CtxRef) (w : World) : World * bool :=
  (fst (Next c w), false).

(** A started actor with handler 5 on route 0, the route of a zero-valued
    context. *)
Definition world5 : World :=
  mkWorld (set_routes {[ 0 := 5%nat ]} (actor0 started 4)) (Scheduler.mk ∅ ∅) ∅ [].

(** ** Further definitions: addresses, call series, pooled delivery *)

(** Whether a string holds the separator of a PID. *)
Fixpoint has_slash (s : string) : bool :=
  match s with
  | EmptyString => false
  | String a rest => bool_decide (String a "" = "/") || has_slash rest
  end.

(** An actor of the given kind and id, not yet started. *)
Definition actor_of (kind id : string) : Actor :=
  mkActor id unstart ∅ ∅ {| processor_Kind := kind |}
          (Chan.make 4) (Chan.make 4) ∅.

(** The calls an actor takes from outside its worker. *)
Inductive ApiCall :=
| CallInvoke (fn : nat)
| CallAddRouteHandler (route : Z) (handler : RouteHandler)
| CallAddEventHandler (event : Z) (handler : EventHandler)
| CallNext (c : CtxRef)
| CallDestroy.

Global Instance ApiCall_eq_dec : EqDecision ApiCall.
Proof. solve_decision. Defined.

Definition api_call (k : ApiCall) (w : World) : World * Outcome :=
  match k with
  | CallInvoke fn => Invoke fn w
  | CallAddRouteHandler route handler => AddRouteHandler route handler w
  | CallAddEventHandler event handler => AddEventHandler event handler w
  | CallNext c => Next c w
  | CallDestroy => Destroy w
  end.

(** A series of calls made by one caller, each after the one before it has
    returned: the series ends at the first call that blocks or panics, and
    the calls after it are never made. *)
Fixpoint api_calls (ks : list ApiCall) (w : World) : World * Outcome :=
  match ks with
  | [] => (w, Returned)
  | k :: rest => api_call k w ;;; api_calls rest
  end.

(** A destroyed actor: the fresh started one after [Destroy]. *)
Definition world_gone : World := fst (Destroy (world0 started 4)).

(** The closures a series of [AddRouteHandler] calls on a started actor puts
    on the control queue. *)
Definition route_closures (calls : list (Z * RouteHandler)) : list Fn :=
  map (λ call, FnAddRoute call.1 call.2) calls.

(** One [scheduler.routes.Store(route, kind)]. *)
Definition publish_route (kind : string) (m : gmap Z string)
    (call : Z * RouteHandler) : gmap Z string :=
  <[call.1 := kind]> m.

(** The world after the values at the head of the control queue were taken,
    [rest] being what is left. *)
Definition fn_dequeued (rest : list Fn) (w : World) : World :=
  with_actor
    (set_fnChan (Chan.mk rest (Chan.cap (fnChan (actor w)))
                         (Chan.closed (fnChan (actor w)))) (actor w)) w.


(** * Properties *)

(** ** The membership set *)

Lemma set_binds_id (a : Actor) : set_binds (binds a) a = a.
Proof. by destruct a. Qed.

(** C9: after [bindUser uid], [unbindUser uid] returns true and the uid is no
    longer in the membership set; [unbindUser] of a uid that is not in the
    set returns false and leaves the actor as it was, so a second
    [unbindUser] of the same uid returns false and changes nothing. *)
Theorem unbindUser_after_bindUser (a : Actor) (uid : Z) :
  (snd (unbindUser uid (bindUser uid a)) = true
   ∧ uid ∉ binds (fst (unbindUser uid (bindUser uid a))))
  ∧ (uid ∉ binds a → unbindUser uid a = (a, false))
  ∧ unbindUser uid (fst (unbindUser uid a)) = (fst (unbindUser uid a), false).
Proof.
  split; [split|split].
  - unfold unbindUser; simpl. apply bool_decide_eq_true. set_solver.
  - unfold unbindUser; simpl. set_solver.
  - intros Hnot. unfold unbindUser.
    rewrite (bool_decide_eq_false_2 _ Hnot).
    replace (binds a ∖ {[uid]}) with (binds a) by set_solver.
    by rewrite set_binds_id.
  - unfold unbindUser; simpl.
    rewrite bool_decide_eq_false_2 by set_solver.
    f_equal. destruct a; unfold set_binds; simpl. f_equal. set_solver.
Qed.

Lemma unbindUser_after_bindUser_witness :
  (42 ∉ binds (actor0 started 4))
  ∧ unbindUser 42 (actor0 started 4) = (actor0 started 4, false)
  ∧ snd (unbindUser 42 (bindUser 42 (actor0 started 4))) = true.
Proof.
  assert (H : 42 ∉ binds (actor0 started 4)) by (vm_compute; discriminate).
  destruct (unbindUser_after_bindUser (actor0 started 4) 42) as [[Ht _] [Hf _]].
  split; [exact H|]. split; [exact (Hf H)|exact Ht].
Defined.

(** ** The proxy: where a reply or a delivery goes *)

Module ProxyFacts.
Import ProxyOps.

(** C5: [Response] looks only at the gateway id and the node id of the
    request.  A non-empty gateway id gives one [Push] to connection [CID] on
    that gateway; an empty gateway id with a non-empty node id gives one
    [Deliver] to that node and user; both empty give no call and [nil]. *)
Theorem Response_routes_by_attribution
    (p : Proxy) (ctx : GoContext) (req : Request) (message : any) :
  (GID req ≠ "" →
     Response p ctx req message =
       ([LinkPush ctx (link.mkPushArgs (GID req) session.Conn (CID req)
                                       (reply req message))],
        link_Push p ctx (link.mkPushArgs (GID req) session.Conn (CID req)
                                         (reply req message))))
  ∧ (GID req = "" → NID req ≠ "" →
     Response p ctx req message =
       ([LinkDeliver ctx (link.mkDeliverArgs (NID req) (UID req)
                                             (reply req message))],
        link_Deliver p ctx (link.mkDeliverArgs (NID req) (UID req)
                                               (reply req message))))
  ∧ (GID req = "" → NID req = "" → Response p ctx req message = ([], None)).
Proof.
  unfold Response, reply. repeat split.
  - intros Hg. by rewrite bool_decide_eq_true_2.
  - intros Hg Hn. rewrite bool_decide_eq_false_2 by (intros H; by apply H).
    by rewrite bool_decide_eq_true_2.
  - intros Hg Hn. rewrite bool_decide_eq_false_2 by (intros H; by apply H).
    rewrite bool_decide_eq_false_2 by (intros H; by apply H). done.
Qed.

Lemma Response_routes_by_attribution_witness :
  Response proxy1 bg (mkRequest "g1" "n2" 5 42 hello) "ok" =
    ([LinkPush bg (link.mkPushArgs "g1" session.Conn 5 (link.mkMessage 7 10 "ok"))],
     None)
  ∧ Response proxy1 bg (mkRequest "" "n2" 5 42 hello) "ok" =
    ([LinkDeliver bg (link.mkDeliverArgs "n2" 42 (link.mkMessage 7 10 "ok"))],
     None)
  ∧ Response proxy1 bg (mkRequest "" "" 5 42 hello) "ok" = ([], None).
Proof.
  split; [|split].
  - apply (Response_routes_by_attribution proxy1 bg
             (mkRequest "g1" "n2" 5 42 hello) "ok"). simpl. discriminate.
  - apply (Response_routes_by_attribution proxy1 bg
             (mkRequest "" "n2" 5 42 hello) "ok"); simpl;
      [reflexivity | discriminate].
  - apply (Response_routes_by_attribution proxy1 bg
             (mkRequest "" "" 5 42 hello) "ok"); reflexivity.
Defined.

(** C6: for a target node id equal to the local node id, [Deliver] makes one
    call, to the router's local resolution, and none to the link; for any
    other target node id it makes one call, the link's [Deliver]. *)
Theorem Deliver_local_or_link
    (p : Proxy) (ctx : GoContext) (args : cluster.DeliverArgs) :
  (cluster.NID args = GetNodeID p →
     fst (Deliver p ctx args) =
       [RouterDeliver (local_args args) (router_deliver p (local_args args))]
     ∧ filter is_LinkCall (fst (Deliver p ctx args)) = [])
  ∧ (cluster.NID args ≠ GetNodeID p →
     fst (Deliver p ctx args) =
       [LinkDeliver ctx (link.mkDeliverArgs (cluster.NID args) (cluster.UID args)
                                            (cluster.Message args))]
     ∧ length (filter is_LinkDeliver (fst (Deliver p ctx args))) = 1%nat
     ∧ filter is_RouterDeliver (fst (Deliver p ctx args)) = []).
Proof.
  unfold Deliver, local_args. split.
  - intros Heq. rewrite bool_decide_eq_false_2 by (intros H; by apply H).
    by split.
  - intros Hne. rewrite bool_decide_eq_true_2 by done. by repeat split.
Qed.

Lemma Deliver_local_or_link_witness :
  filter is_LinkCall
    (fst (Deliver proxy1 bg (cluster.mkDeliverArgs "n1" 42 hello))) = []
  ∧ length (filter is_LinkDeliver
      (fst (Deliver proxy1 bg (cluster.mkDeliverArgs "n2" 42 hello)))) = 1%nat.
Proof.
  split.
  - apply (Deliver_local_or_link proxy1 bg (cluster.mkDeliverArgs "n1" 42 hello)).
    reflexivity.
  - apply (Deliver_local_or_link proxy1 bg (cluster.mkDeliverArgs "n2" 42 hello)).
    simpl. discriminate.
Defined.

(** C10: for a target node id equal to the local node id, [Deliver] returns
    [nil], whatever the local route resolution came to. *)
Theorem Deliver_local_returns_nil
    (p : Proxy) (ctx : GoContext) (args : cluster.DeliverArgs) :
  cluster.NID args = GetNodeID p →
  snd (Deliver p ctx args) = None.
Proof.
  intros Heq. unfold Deliver.
  by rewrite bool_decide_eq_false_2 by (intros H; by apply H).
Qed.

Lemma Deliver_local_returns_nil_witness :
  router_deliver proxy1 (local_args (cluster.mkDeliverArgs "n1" 42 hello))
    = Some "route not found"
  ∧ snd (Deliver proxy1 bg (cluster.mkDeliverArgs "n1" 42 hello)) = None.
Proof.
  split; [reflexivity|].
  apply (Deliver_local_returns_nil proxy1 bg (cluster.mkDeliverArgs "n1" 42 hello)).
  reflexivity.
Defined.

End ProxyFacts.

(** ** Calls on an actor that is not started *)

(** C3, at a concrete input: on an actor still in [unstart],
    [AddRouteHandler] and [AddEventHandler] are not no-ops.  Each writes the
    handler into the table. *)
Lemma AddHandler_unstart_not_noop :
  AddRouteHandler 10 7%nat (world0 unstart 4) ≠ (world0 unstart 4, Returned)
  ∧ routes (actor (fst (AddRouteHandler 10 7%nat (world0 unstart 4)))) !! 10
      = Some 7%nat
  ∧ AddEventHandler 3 8%nat (world0 unstart 4) ≠ (world0 unstart 4, Returned)
  ∧ events (actor (fst (AddEventHandler 3 8%nat (world0 unstart 4)))) !! 3
      = Some 8%nat.
Proof.
  split; [|split; [|split]].
  - intros H. apply (f_equal (λ r, routes (actor (fst r)) !! 10)) in H.
    vm_compute in H. discriminate.
  - by vm_compute.
  - intros H. apply (f_equal (λ r, events (actor (fst r)) !! 3)) in H.
    vm_compute in H. discriminate.
  - by vm_compute.
Qed.

(** C3, amended: on an actor that is not started, [Next] and [Invoke] return
    at once and leave everything as it was; so do [AddRouteHandler] and
    [AddEventHandler] unless the state is [unstart]; in state [unstart] the
    two return at once, log nothing, send nothing on either channel, and
    write the handler into the actor's own table. *)
Theorem not_started_calls
    (w : World) (c : CtxRef) (fn : nat) (key : Z) (handler : nat) :
  state (actor w) ≠ started →
  Next c w = (w, Returned)
  ∧ Invoke fn w = (w, Returned)
  ∧ (state (actor w) ≠ unstart →
       AddRouteHandler key handler w = (w, Returned)
       ∧ AddEventHandler key handler w = (w, Returned))
  ∧ (state (actor w) = unstart →
       AddRouteHandler key handler w =
         (with_actor (set_routes (<[key := handler]> (routes (actor w))) (actor w)) w,
          Returned)
       ∧ AddEventHandler key handler w =
         (with_actor (set_events (<[key := handler]> (events (actor w))) (actor w)) w,
          Returned)
       ∧ ∀ w', (w' = fst (AddRouteHandler key handler w)
                ∨ w' = fst (AddEventHandler key handler w)) →
           mailbox (actor w') = mailbox (actor w)
           ∧ fnChan (actor w') = fnChan (actor w)
           ∧ log w' = log w
           ∧ state (actor w') = unstart).
Proof.
  intros Hns. unfold Next, Invoke, AddRouteHandler, AddEventHandler.
  rewrite (bool_decide_eq_true_2 _ Hns).
  rewrite (bool_decide_eq_false_2 (state (actor w) = started)) by done.
  split; [done|]. split; [done|]. split.
  - intros Hnu. by rewrite (bool_decide_eq_false_2 _ Hnu).
  - intros Hu. rewrite (bool_decide_eq_true_2 _ Hu).
    split; [done|]. split; [done|].
    intros w' [-> | ->]; by simpl.
Qed.

Lemma not_started_calls_witness :
  Next 1%nat (world0 destroyed 4) = (world0 destroyed 4, Returned)
  ∧ Invoke 2%nat (world0 destroyed 4) = (world0 destroyed 4, Returned)
  ∧ AddRouteHandler 10 7%nat (world0 destroyed 4) = (world0 destroyed 4, Returned)
  ∧ AddEventHandler 10 7%nat (world0 destroyed 4) = (world0 destroyed 4, Returned)
  ∧ log (fst (AddRouteHandler 10 7%nat (world0 unstart 4))) = [].
Proof.
  assert (Hd : state (actor (world0 destroyed 4)) ≠ started) by (simpl; discriminate).
  assert (Hd' : state (actor (world0 destroyed 4)) ≠ unstart) by (simpl; discriminate).
  assert (Hu : state (actor (world0 unstart 4)) ≠ started) by (simpl; discriminate).
  destruct (not_started_calls (world0 destroyed 4) 1%nat 2%nat 10 7%nat Hd)
    as (HN & HI & HA & _).
  destruct (HA Hd') as [HR HE].
  destruct (not_started_calls (world0 unstart 4) 1%nat 2%nat 10 7%nat Hu)
    as (_ & _ & _ & HU).
  destruct (HU eq_refl) as (_ & _ & Hq).
  destruct (Hq _ (or_introl eq_refl)) as (_ & _ & Hl & _).
  repeat split; assumption.
Defined.

(** ** Sends, and the channel invariant *)

Lemma send_open_room {A} (x : A) (ch : Chan.t A) :
  Chan.closed ch = false → Chan.has_room ch = true →
  Chan.send x ch = (Chan.mk (Chan.buf ch ++ [x]) (Chan.cap ch) false, Returned).
Proof. intros Hc Hr. unfold Chan.send. by rewrite Hc, Hr. Qed.

Lemma send_open_full {A} (x : A) (ch : Chan.t A) :
  Chan.closed ch = false → Chan.has_room ch = false →
  Chan.send x ch = (ch, Blocked).
Proof. intros Hc Hr. unfold Chan.send. by rewrite Hc, Hr. Qed.

Lemma send_keeps_closed {A} (x : A) (ch : Chan.t A) :
  Chan.closed (fst (Chan.send x ch)) = Chan.closed ch.
Proof.
  unfold Chan.send. destruct (Chan.closed ch) eqn:Hc; [by simpl|].
  destruct (Chan.has_room ch); by simpl.
Qed.

Lemma send_mailbox_frame (c : CtxRef) (w : World) :
  let w' := fst (send_mailbox c w) in
  state (actor w') = state (actor w)
  ∧ Chan.closed (mailbox (actor w')) = Chan.closed (mailbox (actor w))
  ∧ fnChan (actor w') = fnChan (actor w)
  ∧ ctxs w' = ctxs w.
Proof.
  unfold send_mailbox.
  pose proof (send_keeps_closed c (mailbox (actor w))) as Hk.
  destruct (Chan.send c (mailbox (actor w))) as [ch []]; by simpl in *.
Qed.

Lemma send_fnChan_frame (f : Fn) (w : World) :
  let w' := fst (send_fnChan f w) in
  state (actor w') = state (actor w)
  ∧ Chan.closed (fnChan (actor w')) = Chan.closed (fnChan (actor w))
  ∧ mailbox (actor w') = mailbox (actor w)
  ∧ routes (actor w') = routes (actor w)
  ∧ events (actor w') = events (actor w)
  ∧ scheduler w' = scheduler w.
Proof.
  unfold send_fnChan.
  pose proof (send_keeps_closed f (fnChan (actor w))) as Hk.
  destruct (Chan.send f (fnChan (actor w))) as [ch []]; by simpl in *.
Qed.

(** The invariant holds of a fresh actor and is kept by every method called
    from outside the worker. *)
Lemma wf_world0 (st : Z) (n : nat) : st ≠ destroyed → wf (world0 st n).
Proof.
  intros H. unfold wf; simpl. by rewrite (bool_decide_eq_false_2 _ H).
Qed.

Lemma wf_Next (c : CtxRef) (w : World) : wf w → wf (fst (Next c w)).
Proof.
  intros Hwf. unfold Next. case_bool_decide; [exact Hwf|].
  destruct Hwf as [Hm Hf].
  destruct (send_mailbox_frame c (Cancel c (incrVersion c w))) as (Hs & Hc & Hfc & _).
  unfold wf. rewrite Hs, Hc, Hfc. by simpl.
Qed.

Lemma wf_send_fnChan (f : Fn) (w : World) : wf w → wf (fst (send_fnChan f w)).
Proof.
  intros [Hm Hf].
  destruct (send_fnChan_frame f w) as (Hs & Hc & Hmb & _).
  unfold wf. by rewrite Hs, Hc, Hmb.
Qed.

Lemma wf_Invoke (fn : nat) (w : World) : wf w → wf (fst (Invoke fn w)).
Proof.
  intros H. unfold Invoke. case_bool_decide; [exact H|]. by apply wf_send_fnChan.
Qed.

Lemma wf_AddRouteHandler (route : Z) (handler : RouteHandler) (w : World) :
  wf w → wf (fst (AddRouteHandler route handler w)).
Proof.
  intros H. unfold AddRouteHandler.
  repeat case_bool_decide; [exact H | by apply wf_send_fnChan | exact H].
Qed.

Lemma wf_AddEventHandler (event : Z) (handler : EventHandler) (w : World) :
  wf w → wf (fst (AddEventHandler event handler w)).
Proof.
  intros H. unfold AddEventHandler.
  repeat case_bool_decide; [exact H | by apply wf_send_fnChan | exact H].
Qed.

Lemma wf_started_open (w : World) :
  wf w → state (actor w) = started →
  Chan.closed (mailbox (actor w)) = false ∧ Chan.closed (fnChan (actor w)) = false.
Proof.
  intros [Hm Hf] Hs. rewrite Hm, Hf, Hs. by split.
Qed.

(** ** Next on a started actor *)

Lemma loadVersion_bumped (c : CtxRef) (w : World) :
  loadVersion c (Cancel c (incrVersion c w)) = loadVersion c w + 1.
Proof.
  unfold loadVersion, Cancel, incrVersion, emit, ctx_get; simpl.
  rewrite !lookup_insert_eq. simpl. unfold ctx_get. simpl.
  by rewrite lookup_insert_eq.
Qed.

Lemma loadVersion_other (c c' : CtxRef) (w : World) :
  c ≠ c' → loadVersion c' (Cancel c (incrVersion c w)) = loadVersion c' w.
Proof.
  intros H. unfold loadVersion, Cancel, incrVersion, emit, ctx_get; simpl.
  by rewrite !lookup_insert_ne.
Qed.





(** ** Registering handlers *)

Lemma AddRouteHandler_unstart (route : Z) (handler : RouteHandler) (w : World) :
  state (actor w) = unstart →
  AddRouteHandler route handler w =
    (with_actor (set_routes (<[route := handler]> (routes (actor w))) (actor w)) w,
     Returned).
Proof. intros H. unfold AddRouteHandler. by rewrite (bool_decide_eq_true_2 _ H). Qed.

Lemma AddRouteHandlers_unstart (calls : list (Z * RouteHandler)) :
  ∀ w, state (actor w) = unstart →
    AddRouteHandlers calls w =
      (with_actor (set_routes (foldl write_route (routes (actor w)) calls) (actor w)) w,
       Returned).
Proof.
  induction calls as [|[r h] rest IH]; intros w Hu; simpl.
  - by destruct w as [[] ? ? ?].
  - rewrite (AddRouteHandler_unstart r h w Hu). simpl.
    rewrite IH by exact Hu. reflexivity.
Qed.

Lemma foldl_write_route_lookup (calls : list (Z * RouteHandler)) :
  ∀ (m : gmap Z RouteHandler) (route : Z),
    foldl write_route m calls !! route = last_write_wins calls m route.
Proof.
  induction calls as [|[r h] rest IH]; intros m route; [reflexivity|].
  simpl. rewrite IH. unfold last_write_wins, write_route; simpl.
  destruct (last_write rest route) as [h'|]; [reflexivity|].
  case_bool_decide as Hr.
  - subst. by rewrite lookup_insert_eq.
  - by rewrite lookup_insert_ne.
Qed.

Lemma dispatch_step_fnChan_head
    (run_route : RouteHandler → CtxRef → World → World * bool)
    (run_event : EventHandler → CtxRef → World → World * bool)
    (run_defer : CtxRef → World → World)
    (run_fn : nat → World → World * bool)
    (w : World) (f : Fn) (rest : list Fn) :
  Chan.buf (fnChan (actor w)) = f :: rest →
  dispatch_step run_route run_event run_defer run_fn PickFnChan w =
    Continue (xcall_Call (λ w0, run_Fn run_fn f (emit (EFn f) w0))
       (with_actor
          (set_fnChan (Chan.mk rest (Chan.cap (fnChan (actor w)))
                               (Chan.closed (fnChan (actor w)))) (actor w)) w)).
Proof. intros H. unfold dispatch_step, Chan.recv. by rewrite H. Qed.

(** C8: in state [unstart] the two calls write the actor's table directly,
    and after any series of [AddRouteHandler] calls the table is the
    last-write-wins table of the series, nothing else having changed; on a
    started actor the call only sends a closure on the control queue (or
    blocks when it is full), and the worker, when it takes the closure from
    the queue, writes the table and, for a route, stores the route under the
    actor's kind in the scheduler's route table; on a destroyed actor both
    calls change nothing. *)
Theorem AddHandler_by_state
    (run_route : RouteHandler → CtxRef → World → World * bool)
    (run_event : EventHandler → CtxRef → World → World * bool)
    (run_defer : CtxRef → World → World)
    (run_fn : nat → World → World * bool)
    (w : World) (key : Z) (handler : nat) :
  (state (actor w) = unstart →
     AddRouteHandler key handler w =
       (with_actor (set_routes (<[key := handler]> (routes (actor w))) (actor w)) w,
        Returned)
     ∧ AddEventHandler key handler w =
       (with_actor (set_events (<[key := handler]> (events (actor w))) (actor w)) w,
        Returned)
     ∧ ∀ calls, ∃ tbl,
         AddRouteHandlers calls w = (with_actor (set_routes tbl (actor w)) w, Returned)
         ∧ ∀ route, tbl !! route = last_write_wins calls (routes (actor w)) route)
  ∧ (state (actor w) = started → wf w →
     (Chan.has_room (fnChan (actor w)) = true →
        AddRouteHandler key handler w
          = (queued (FnAddRoute key handler) w, Returned)
        ∧ AddEventHandler key handler w
          = (queued (FnAddEvent key handler) w, Returned))
     ∧ (Chan.has_room (fnChan (actor w)) = false →
        AddRouteHandler key handler w = (w, Blocked)
        ∧ AddEventHandler key handler w = (w, Blocked)))
  ∧ (∀ rest, Chan.buf (fnChan (actor w)) = FnAddRoute key handler :: rest →
     ∃ w', dispatch_step run_route run_event run_defer run_fn PickFnChan w = Continue w'
       ∧ routes (actor w') = <[key := handler]> (routes (actor w))
       ∧ Scheduler.routes (scheduler w')
           = <[key := Kind (actor w)]> (Scheduler.routes (scheduler w))
       ∧ events (actor w') = events (actor w)
       ∧ Chan.buf (fnChan (actor w')) = rest)
  ∧ (∀ rest, Chan.buf (fnChan (actor w)) = FnAddEvent key handler :: rest →
     ∃ w', dispatch_step run_route run_event run_defer run_fn PickFnChan w = Continue w'
       ∧ events (actor w') = <[key := handler]> (events (actor w))
       ∧ routes (actor w') = routes (actor w)
       ∧ scheduler w' = scheduler w
       ∧ Chan.buf (fnChan (actor w')) = rest)
  ∧ (state (actor w) = destroyed →
     AddRouteHandler key handler w = (w, Returned)
     ∧ AddEventHandler key handler w = (w, Returned)).
Proof.
  split; [|split; [|split; [|split]]].
  - intros Hu. split; [by apply AddRouteHandler_unstart|]. split.
    + unfold AddEventHandler. by rewrite (bool_decide_eq_true_2 _ Hu).
    + intros calls. eexists. split; [by apply AddRouteHandlers_unstart|].
      intros route. apply foldl_write_route_lookup.
  - intros Hs Hwf. destruct (wf_started_open w Hwf Hs) as [_ Hopen].
    unfold AddRouteHandler, AddEventHandler, send_fnChan.
    rewrite (bool_decide_eq_false_2 (state (actor w) = unstart))
      by (rewrite Hs; discriminate).
    rewrite (bool_decide_eq_true_2 _ Hs).
    split; intros Hr.
    + by rewrite !(send_open_room _ _ Hopen Hr).
    + by rewrite !(send_open_full _ _ Hopen Hr).
  - intros rest Hb.
    rewrite (dispatch_step_fnChan_head _ _ _ _ w _ _ Hb).
    eexists. split; [reflexivity|]. by simpl.
  - intros rest Hb.
    rewrite (dispatch_step_fnChan_head _ _ _ _ w _ _ Hb).
    eexists. split; [reflexivity|]. by simpl.
  - intros Hd. unfold AddRouteHandler, AddEventHandler.
    rewrite (bool_decide_eq_false_2 (state (actor w) = unstart))
      by (rewrite Hd; discriminate).
    by rewrite (bool_decide_eq_false_2 (state (actor w) = started))
      by (rewrite Hd; discriminate).
Qed.

Lemma AddHandler_by_state_witness :
  (∃ tbl,
     AddRouteHandlers [(10, 1%nat); (20, 2%nat); (10, 3%nat)] (world0 unstart 4)
       = (with_actor (set_routes tbl (actor (world0 unstart 4))) (world0 unstart 4),
          Returned)
     ∧ tbl !! 10 = Some 3%nat ∧ tbl !! 20 = Some 2%nat ∧ tbl !! 30 = None)
  ∧ AddRouteHandler 10 7%nat (world0 started 4)
      = (queued (FnAddRoute 10 7%nat) (world0 started 4), Returned)
  ∧ (∃ w', dispatch_step idle_handler idle_handler idle_defer idle_fn PickFnChan
             (queued (FnAddRoute 10 7%nat) (world0 started 4)) = Continue w'
       ∧ routes (actor w') !! 10 = Some 7%nat
       ∧ Scheduler.routes (scheduler w') !! 10 = Some "room")
  ∧ AddRouteHandler 10 7%nat (world0 destroyed 4) = (world0 destroyed 4, Returned).
Proof.
  split; [|split; [|split]].
  - destruct (AddHandler_by_state idle_handler idle_handler idle_defer idle_fn
                (world0 unstart 4) 10 7%nat) as (Hu & _).
    destruct (Hu eq_refl) as (_ & _ & Hseries).
    destruct (Hseries [(10, 1%nat); (20, 2%nat); (10, 3%nat)]) as (tbl & Heq & Hlook).
    exists tbl. split; [exact Heq|].
    rewrite !Hlook. by vm_compute.
  - destruct (AddHandler_by_state idle_handler idle_handler idle_defer idle_fn
                (world0 started 4) 10 7%nat) as (_ & Hs & _).
    assert (Hwf : wf (world0 started 4)) by (apply wf_world0; discriminate).
    destruct (Hs eq_refl Hwf) as [Hroom _].
    exact (proj1 (Hroom eq_refl)).
  - destruct (AddHandler_by_state idle_handler idle_handler idle_defer idle_fn
                (queued (FnAddRoute 10 7%nat) (world0 started 4)) 10 7%nat)
      as (_ & _ & Hrun & _).
    destruct (Hrun [] eq_refl) as (w' & Hstep & Hr & Hsr & _).
    exists w'. split; [exact Hstep|]. rewrite Hr, Hsr. by vm_compute.
  - destruct (AddHandler_by_state idle_handler idle_handler idle_defer idle_fn
                (world0 destroyed 4) 10 7%nat) as (_ & _ & _ & _ & Hd).
    exact (proj1 (Hd eq_refl)).
Defined.

(** ** Destroy *)

Lemma related_deleteRelation (kind : string) (uid u : Z)
    (relations : gmap Z (gmap string string)) :
  related (deleteRelation kind uid relations) u kind =
    if bool_decide (u = uid) then None else related relations u kind.
Proof.
  unfold related, deleteRelation.
  destruct (relations !! uid) as [m|] eqn:Hm; case_bool_decide as Hu; subst.
  - rewrite lookup_insert_eq. simpl. apply lookup_delete_eq.
  - by rewrite lookup_insert_ne.
  - by rewrite Hm.
  - reflexivity.
Qed.

Lemma related_deleteRelation_other_kind (kind k' : string) (uid u : Z)
    (relations : gmap Z (gmap string string)) :
  k' ≠ kind →
  related (deleteRelation kind uid relations) u k' = related relations u k'.
Proof.
  intros Hk. unfold related, deleteRelation.
  destruct (relations !! uid) as [m|] eqn:Hm; [|reflexivity].
  destruct (decide (u = uid)) as [->|Hu].
  - rewrite lookup_insert_eq, Hm. simpl. by apply lookup_delete_ne.
  - by rewrite lookup_insert_ne.
Qed.

Lemma related_foldr_deleteRelation (kind : string) (uids : list Z) :
  ∀ (relations : gmap Z (gmap string string)) (u : Z),
    related (foldr (deleteRelation kind) relations uids) u kind =
      if bool_decide (u ∈ uids) then None else related relations u kind.
Proof.
  induction uids as [|uid rest IH]; intros relations u; cbn [foldr].
  - rewrite bool_decide_eq_false_2; [reflexivity|]. apply not_elem_of_nil.
  - rewrite related_deleteRelation, IH.
    case_bool_decide as H1.
    + subst. rewrite bool_decide_eq_true_2; [reflexivity|].
      apply elem_of_cons. by left.
    + case_bool_decide as H2.
      * rewrite bool_decide_eq_true_2; [reflexivity|].
        apply elem_of_cons. by right.
      * rewrite bool_decide_eq_false_2; [reflexivity|].
        apply not_elem_of_cons. by split.
Qed.

Lemma related_foldr_deleteRelation_other_kind (kind k' : string) (uids : list Z) :
  k' ≠ kind →
  ∀ (relations : gmap Z (gmap string string)) (u : Z),
    related (foldr (deleteRelation kind) relations uids) u k'
      = related relations u k'.
Proof.
  intros Hk. induction uids as [|uid rest IH]; intros relations u; cbn [foldr].
  - reflexivity.
  - by rewrite (related_deleteRelation_other_kind kind k' _ _ _ Hk), IH.
Qed.

Lemma related_unbindAll (a : Actor) (relations : gmap Z (gmap string string))
    (u : Z) :
  related (unbindAll a relations) u (Kind a) =
    if bool_decide (u ∈ binds a) then None else related relations u (Kind a).
Proof.
  unfold unbindAll. rewrite related_foldr_deleteRelation.
  destruct (decide (u ∈ binds a)) as [Hin|Hnin].
  - rewrite (bool_decide_eq_true_2 _ Hin).
    rewrite bool_decide_eq_true_2; [reflexivity|]. by apply elem_of_elements.
  - rewrite (bool_decide_eq_false_2 _ Hnin).
    rewrite bool_decide_eq_false_2; [reflexivity|]. by rewrite elem_of_elements.
Qed.

Lemma Destroy_not_started (w : World) :
  state (actor w) ≠ started → Destroy w = (w, Returned).
Proof. intros H. unfold Destroy. by rewrite (bool_decide_eq_false_2 _ H). Qed.

Lemma Destroy_times_not_started (n : nat) (w : World) :
  state (actor w) ≠ started → Destroy_times n w = (w, Returned).
Proof.
  intros H. induction n as [|n IH]; [reflexivity|].
  simpl. by rewrite (Destroy_not_started w H).
Qed.

(** What a successful [Destroy] comes to: the removal, then the two closes. *)
Lemma Destroy_started (w : World) :
  state (actor w) = started →
  Chan.closed (mailbox (actor w)) = false →
  Chan.closed (fnChan (actor w)) = false →
  Destroy w = (closed_down (Destroy_unbind w), Returned).
Proof.
  intros Hs Hm Hf. unfold Destroy. rewrite (bool_decide_eq_true_2 _ Hs).
  unfold close_mailbox, Chan.close. simpl. rewrite Hm. simpl.
  unfold close_fnChan, Chan.close. simpl. by rewrite Hf.
Qed.

Lemma wf_Destroy (w : World) : wf w → wf (fst (Destroy w)).
Proof.
  intros Hwf. destruct (decide (state (actor w) = started)) as [Hs|Hs].
  - destruct (wf_started_open w Hwf Hs) as [Hm Hf].
    rewrite (Destroy_started w Hs Hm Hf). by split.
  - by rewrite (Destroy_not_started w Hs).
Qed.

(** C2: on a started actor one [Destroy] returns after exactly one processor
    cleanup, one batched removal and one close of each channel, in that
    order, and any further number of calls changes nothing more.  After the
    removal, and before either channel is closed, no bound user is related to
    an actor of this kind any more, and the entries of other kinds are as
    they were; if the relation table named this actor only at its bound
    users, it no longer names it under its kind at all. *)
Theorem Destroy_idempotent (w : World) :
  state (actor w) = started →
  wf w →
  ∃ w1, Destroy w = (w1, Returned)
    ∧ (∀ n, Destroy_times (S n) w = (w1, Returned))
    ∧ state (actor w1) = destroyed
    ∧ log w1 = log w ++ [EProcessorDestroy;
                         EBatchUnbind (elements (binds (actor w))) (Kind (actor w));
                         ECloseMailbox; ECloseFnChan]
    ∧ Chan.closed (mailbox (actor w1)) = true
    ∧ Chan.closed (fnChan (actor w1)) = true
    ∧ (Chan.closed (mailbox (actor (Destroy_unbind w))) = false
       ∧ Chan.closed (fnChan (actor (Destroy_unbind w))) = false
       ∧ scheduler (Destroy_unbind w) = scheduler w1)
    ∧ (∀ uid, uid ∈ binds (actor w) →
         related (Scheduler.relations (scheduler w1)) uid (Kind (actor w)) = None)
    ∧ (∀ uid kind, kind ≠ Kind (actor w) →
         related (Scheduler.relations (scheduler w1)) uid kind
           = related (Scheduler.relations (scheduler w)) uid kind)
    ∧ ((∀ uid, related (Scheduler.relations (scheduler w)) uid (Kind (actor w))
                 = Some (PID (actor w)) → uid ∈ binds (actor w)) →
       ∀ uid, related (Scheduler.relations (scheduler w1)) uid (Kind (actor w))
                ≠ Some (PID (actor w))).
Proof.
  intros Hs Hwf. destruct (wf_started_open w Hwf Hs) as [Hm Hf].
  pose proof (Destroy_started w Hs Hm Hf) as HD.
  assert (Hrel : ∀ uid,
    related (Scheduler.relations (scheduler (closed_down (Destroy_unbind w))))
            uid (Kind (actor w))
    = if bool_decide (uid ∈ binds (actor w)) then None
      else related (Scheduler.relations (scheduler w)) uid (Kind (actor w))).
  { intros uid.
    exact (related_unbindAll (set_state destroyed (actor w))
             (Scheduler.relations (scheduler w)) uid). }
  exists (closed_down (Destroy_unbind w)). split; [exact HD|].
  split; [|split; [reflexivity|split; [|split; [reflexivity|split;
    [reflexivity|split; [|split; [|split]]]]]]].
  - intros n. simpl. rewrite HD. simpl.
    apply Destroy_times_not_started. simpl. discriminate.
  - simpl. by rewrite <- !app_assoc.
  - simpl. by rewrite Hm, Hf.
  - intros uid Hin. rewrite Hrel. by rewrite bool_decide_eq_true_2.
  - intros uid kind Hk.
    exact (related_foldr_deleteRelation_other_kind _ kind _ Hk _ uid).
  - intros Hcons uid Hrelated. rewrite Hrel in Hrelated.
    case_bool_decide as Hin; [discriminate|].
    apply Hin, Hcons. exact Hrelated.
Qed.

Lemma Destroy_idempotent_witness :
  ∃ w1, Destroy world42 = (w1, Returned)
    ∧ Destroy_times 3 world42 = (w1, Returned)
    ∧ log w1 = [EProcessorDestroy; EBatchUnbind [42] "room";
                ECloseMailbox; ECloseFnChan]
    ∧ related (Scheduler.relations (scheduler world42)) 42 "room" = Some "room/1"
    ∧ related (Scheduler.relations (scheduler w1)) 42 "room" = None.
Proof.
  assert (Hs : state (actor world42) = started) by reflexivity.
  assert (Hwf : wf world42) by (split; reflexivity).
  destruct (Destroy_idempotent world42 Hs Hwf)
    as (w1 & HD & Hn & _ & Hlog & _ & _ & _ & Hrel & _).
  exists w1. split; [exact HD|]. split; [exact (Hn 2%nat)|].
  split; [rewrite Hlog; by vm_compute|].
  split; [by vm_compute|].
  apply Hrel. by vm_compute.
Defined.

(** ** The mailbox case of the worker *)

Lemma dispatch_step_mailbox_head
    (run_route : RouteHandler → CtxRef → World → World * bool)
    (run_event : EventHandler → CtxRef → World → World * bool)
    (run_defer : CtxRef → World → World)
    (run_fn : nat → World → World * bool)
    (w : World) (c : CtxRef) (rest : list CtxRef) :
  Chan.buf (mailbox (actor w)) = c :: rest →
  dispatch_step run_route run_event run_defer run_fn PickMailbox w =
    Continue (dispatch_ctx run_route run_event run_defer c (dequeued rest w)).
Proof. intros H. unfold dispatch_step, Chan.recv. by rewrite H. Qed.

Lemma post_steps_gate (run_defer : CtxRef → World → World)
    (c : CtxRef) (v : Z) (w : World) :
  compareVersionRecycle c v (compareVersionExecDefer run_defer c v w) =
    if bool_decide (v = loadVersion c w)
    then if bool_decide (v = loadVersion c (run_defer c (emit (EExecDefer c) w)))
         then emit (ERecycle c) (run_defer c (emit (EExecDefer c) w))
         else run_defer c (emit (EExecDefer c) w)
    else w.
Proof.
  unfold compareVersionExecDefer, Context.versionIs, loadVersion,
    Context.loadVersion.
  destruct (decide (v = Context.version (ctx_get w c))) as [Hv|Hv].
  - rewrite !(bool_decide_eq_true_2 _ Hv). reflexivity.
  - rewrite !(bool_decide_eq_false_2 _ Hv).
    unfold compareVersionRecycle, Context.versionIs.
    by rewrite (bool_decide_eq_false_2 _ Hv).
Qed.

Lemma xcall_Call_spec (fn : World → World * bool) (w : World) :
  xcall_Call fn w =
    if snd (fn w) then emit EFaultLogged (fst (fn w)) else fst (fn w).
Proof. unfold xcall_Call. by destruct (fn w) as [w' []]. Qed.

(** C4: for a context [c] at the head of the mailbox the worker looks the
    handler up in the event table if [c] is an event and in the route table
    if it is a message; without a handler the context is passed over and
    nothing is logged; with one, the handler is called under [xcall.Call],
    and a fault only adds a log entry to the world the handler left.  In
    every case the loop goes round again.  The version is read before the
    lookup.  After the handler the finalizer runs if the version then equals
    the one read, and after that the context is recycled if the version
    still equals the one read; the finalizer is user code and may change the
    version, so it can run without the recycling following. *)
Theorem dispatch_mailbox_case
    (run_route : RouteHandler → CtxRef → World → World * bool)
    (run_event : EventHandler → CtxRef → World → World * bool)
    (run_defer : CtxRef → World → World)
    (run_fn : nat → World → World * bool)
    (w : World) (c : CtxRef) (rest : list CtxRef) :
  Chan.buf (mailbox (actor w)) = c :: rest →
  let w0 := dequeued rest w in
  let r := ctx_get w c in
  let v := loadVersion c w in
  let w1 := handle run_route run_event c w0 in
  let w2 := run_defer c (emit (EExecDefer c) w1) in
  let w3 := compareVersionRecycle c v (compareVersionExecDefer run_defer c v w1) in
  (Context.kind r = Context.Event →
     (∀ h, events (actor w) !! Context.event r = Some h →
        w1 = xcall_Call (λ x, run_event h c (emit (EEventHandler h c) x)) w0)
     ∧ (events (actor w) !! Context.event r = None → w1 = w0))
  ∧ (Context.kind r = Context.Message →
     (∀ h, routes (actor w) !! Context.route r = Some h →
        w1 = xcall_Call (λ x, run_route h c (emit (ERouteHandler h c) x)) w0)
     ∧ (routes (actor w) !! Context.route r = None → w1 = w0))
  ∧ (∀ fn x, actor (xcall_Call fn x) = actor (fst (fn x))
             ∧ ctxs (xcall_Call fn x) = ctxs (fst (fn x))
             ∧ log (xcall_Call fn x)
               = log (fst (fn x)) ++ (if snd (fn x) then [EFaultLogged] else []))
  ∧ dispatch_step run_route run_event run_defer run_fn PickMailbox w = Continue w3
  ∧ (∀ picks,
       dispatch run_route run_event run_defer run_fn (PickMailbox :: picks) w =
       dispatch run_route run_event run_defer run_fn picks w3)
  ∧ (loadVersion c w1 ≠ v → w3 = w1)
  ∧ (loadVersion c w1 = v → loadVersion c w2 = v → w3 = emit (ERecycle c) w2)
  ∧ (loadVersion c w1 = v → loadVersion c w2 ≠ v → w3 = w2).
Proof.
  intros Hb w0 r v w1 w2 w3.
  assert (Hstep :
    dispatch_step run_route run_event run_defer run_fn PickMailbox w = Continue w3).
  { by rewrite (dispatch_step_mailbox_head _ _ _ _ w c rest Hb). }
  assert (Hgate : w3 =
    if bool_decide (v = loadVersion c w1)
    then if bool_decide (v = loadVersion c w2) then emit (ERecycle c) w2 else w2
    else w1) by apply post_steps_gate.
  split; [|split; [|split; [|split; [exact Hstep|split; [|split; [|split]]]]]].
  - intros Hk. subst w1. unfold handle.
    replace (ctx_get w0 c) with r by reflexivity.
    replace (events (actor w0)) with (events (actor w)) by reflexivity.
    rewrite (bool_decide_eq_true_2 _ Hk).
    split; [intros h Hh|intros Hh]; by rewrite Hh.
  - intros Hk. subst w1. unfold handle.
    replace (ctx_get w0 c) with r by reflexivity.
    replace (routes (actor w0)) with (routes (actor w)) by reflexivity.
    rewrite bool_decide_eq_false_2 by (rewrite Hk; discriminate).
    split; [intros h Hh|intros Hh]; by rewrite Hh.
  - intros fn x. rewrite xcall_Call_spec.
    destruct (snd (fn x)); simpl; [done|]. by rewrite app_nil_r.
  - intros picks. cbn [dispatch]. by rewrite Hstep.
  - intros Hne. rewrite Hgate.
    by rewrite bool_decide_eq_false_2 by (intros H; by apply Hne).
  - intros H1 H2. rewrite Hgate.
    by rewrite !bool_decide_eq_true_2 by done.
  - intros H1 H2. rewrite Hgate.
    rewrite bool_decide_eq_true_2 by done.
    by rewrite bool_decide_eq_false_2 by (intros H; by apply H2).
Qed.

Lemma dispatch_mailbox_case_witness :
  Chan.buf (mailbox (actor (Nexts [1%nat] world5))) = [1%nat]
  ∧ (∀ picks,
       dispatch faulty_handler idle_handler idle_defer idle_fn (PickMailbox :: picks)
                (Nexts [1%nat] world5)
       = dispatch faulty_handler idle_handler idle_defer idle_fn picks
           (compareVersionRecycle 1%nat 1
              (compareVersionExecDefer idle_defer 1%nat 1
                 (handle faulty_handler idle_handler 1%nat
                    (dequeued [] (Nexts [1%nat] world5))))))
  ∧ log (compareVersionRecycle 1%nat 1
          (compareVersionExecDefer idle_defer 1%nat 1
             (handle faulty_handler idle_handler 1%nat
                (dequeued [] (Nexts [1%nat] world5)))))
    = [EIncrVersion 1%nat; ECancel 1%nat; ESendMailbox 1%nat;
       ERouteHandler 5%nat 1%nat; EFaultLogged;
       EExecDefer 1%nat; ERecycle 1%nat]
  ∧ log (compareVersionRecycle 1%nat 1
          (compareVersionExecDefer forwarding_defer 1%nat 1
             (handle idle_handler idle_handler 1%nat
                (dequeued [] (Nexts [1%nat] world5)))))
    = [EIncrVersion 1%nat; ECancel 1%nat; ESendMailbox 1%nat;
       ERouteHandler 5%nat 1%nat; EExecDefer 1%nat;
       EIncrVersion 1%nat; ECancel 1%nat; ESendMailbox 1%nat].
Proof.
  destruct (dispatch_mailbox_case faulty_handler idle_handler idle_defer idle_fn
              (Nexts [1%nat] world5) 1%nat [] eq_refl)
    as (_ & _ & _ & _ & Hloop & _).
  destruct (dispatch_mailbox_case idle_handler idle_handler forwarding_defer idle_fn
              (Nexts [1%nat] world5) 1%nat [] eq_refl)
    as (_ & _ & _ & _ & _ & _ & _ & Hskip).
  split; [reflexivity|]. split; [exact Hloop|]. split; [by vm_compute|].
  assert (H1 : loadVersion 1%nat
                 (handle idle_handler idle_handler 1%nat
                    (dequeued [] (Nexts [1%nat] world5)))
               = loadVersion 1%nat (Nexts [1%nat] world5)) by (by vm_compute).
  assert (H2 : loadVersion 1%nat
                 (forwarding_defer 1%nat
                    (emit (EExecDefer 1%nat)
                       (handle idle_handler idle_handler 1%nat
                          (dequeued [] (Nexts [1%nat] world5)))))
               ≠ loadVersion 1%nat (Nexts [1%nat] world5))
    by (vm_compute; intros H; discriminate H).
  etrans; [exact (f_equal log (Hskip H1 H2))|]. by vm_compute.
Defined.

(** ** Versions *)

Lemma loadVersion_ctxs (c : CtxRef) (w w' : World) :
  ctxs w = ctxs w' → loadVersion c w = loadVersion c w'.
Proof. intros H. unfold loadVersion, ctx_get. by rewrite H. Qed.

Lemma Next_started_version (c : CtxRef) (w : World) :
  state (actor w) = started →
  state (actor (fst (Next c w))) = started
  ∧ ∀ c', loadVersion c' (fst (Next c w)) =
          loadVersion c' w + (if bool_decide (c = c') then 1 else 0).
Proof.
  intros Hs. unfold Next.
  rewrite bool_decide_eq_false_2 by (intros H; by apply H).
  destruct (send_mailbox_frame c (Cancel c (incrVersion c w))) as (Hst & _ & _ & Hc).
  split; [by rewrite Hst|].
  intros c'. rewrite (loadVersion_ctxs c' _ _ Hc).
  case_bool_decide as Hcc.
  - subst. apply loadVersion_bumped.
  - rewrite (loadVersion_other c c' w Hcc). lia.
Qed.

Lemma Nexts_version (cs : list CtxRef) :
  ∀ (w : World) (c : CtxRef),
    state (actor w) = started →
    loadVersion c (Nexts cs w) = loadVersion c w + Z.of_nat (attempts c cs).
Proof.
  induction cs as [|c0 rest IH]; intros w c Hs; simpl.
  - lia.
  - destruct (Next_started_version c0 w Hs) as [Hs' Hv].
    rewrite (IH _ c Hs'), (Hv c).
    case_bool_decide; lia.
Qed.

Lemma dispatch_ctx_gate
    (run_route : RouteHandler → CtxRef → World → World * bool)
    (run_event : EventHandler → CtxRef → World → World * bool)
    (run_defer : CtxRef → World → World)
    (c : CtxRef) (w : World) :
  dispatch_ctx run_route run_event run_defer c w =
    if bool_decide (loadVersion c w = loadVersion c (handle run_route run_event c w))
    then
      if bool_decide
           (loadVersion c w =
            loadVersion c (run_defer c (emit (EExecDefer c)
                                          (handle run_route run_event c w))))
      then emit (ERecycle c)
             (run_defer c (emit (EExecDefer c) (handle run_route run_event c w)))
      else run_defer c (emit (EExecDefer c) (handle run_route run_event c w))
    else handle run_route run_event c w.
Proof. unfold dispatch_ctx. apply post_steps_gate. Qed.

(** C1, at concrete inputs, for an actor with a handler that does nothing on
    the route of both contexts and finalizers that do nothing.  Two distinct
    contexts 1 and 2 delivered in that order before either is dequeued both
    have version 1, and the post-steps of context 1 run although context 2
    was accepted before its handler finished.  One context delivered twice
    before it is dequeued has version 2 when the worker reads it, and its
    post-steps run as well. *)
Lemma version_claim_fails :
  (loadVersion 1%nat (Nexts [1%nat; 2%nat] world5) = 1
   ∧ loadVersion 2%nat (Nexts [1%nat; 2%nat] world5) = 1
   ∧ ¬ (loadVersion 1%nat (Nexts [1%nat; 2%nat] world5)
        < loadVersion 2%nat (Nexts [1%nat; 2%nat] world5))
   ∧ ∃ w', dispatch_step idle_handler idle_handler idle_defer idle_fn PickMailbox
             (Nexts [1%nat; 2%nat] world5) = Continue w'
       ∧ log w' = log (Nexts [1%nat; 2%nat] world5)
                  ++ [ERouteHandler 5%nat 1%nat; EExecDefer 1%nat; ERecycle 1%nat])
  ∧ (Chan.buf (mailbox (actor (Nexts [1%nat; 1%nat] world5))) = [1%nat; 1%nat]
     ∧ ∃ w', dispatch_step idle_handler idle_handler idle_defer idle_fn PickMailbox
               (Nexts [1%nat; 1%nat] world5) = Continue w'
       ∧ log w' = log (Nexts [1%nat; 1%nat] world5)
                  ++ [ERouteHandler 5%nat 1%nat; EExecDefer 1%nat; ERecycle 1%nat]).
Proof.
  split; [split; [by vm_compute|split; [by vm_compute|split]]|split].
  - vm_compute. intros H. discriminate H.
  - eexists. split; [reflexivity|]. by vm_compute.
  - by vm_compute.
  - eexists. split; [reflexivity|]. by vm_compute.
Qed.

(** C1, amended: on a started actor every [Next] raises the version of the
    context it is given by one and leaves the version of every other context
    alone, so the version of a context after a series of deliveries is its
    version before plus the number of times it was delivered, and a second
    delivery of the same context has a strictly greater version than the
    first.  The worker reads the version when it takes the context from the
    mailbox.  After the handler the finalizer runs if and only if the version
    is still the one read; the context is recycled if and only if the
    finalizer ran and the version is still the one read after it.  In
    particular neither step runs when the handler's world is that of a
    further accepted [Next] of the same context, and the finalizer runs
    without the recycling when the handler left the version alone and the
    finalizer's world is that of such a [Next]. *)
Theorem version_gate
    (run_route : RouteHandler → CtxRef → World → World * bool)
    (run_event : EventHandler → CtxRef → World → World * bool)
    (run_defer : CtxRef → World → World)
    (w : World) (c : CtxRef) :
  state (actor w) = started →
  (∀ cs c', loadVersion c' (Nexts cs w)
            = loadVersion c' w + Z.of_nat (attempts c' cs))
  ∧ loadVersion c (Nexts [c] w) < loadVersion c (Nexts [c; c] w)
  ∧ (∀ w0,
       let w1 := handle run_route run_event c w0 in
       let w2 := run_defer c (emit (EExecDefer c) w1) in
       dispatch_ctx run_route run_event run_defer c w0 =
         if bool_decide (loadVersion c w0 = loadVersion c w1)
         then if bool_decide (loadVersion c w0 = loadVersion c w2)
              then emit (ERecycle c) w2
              else w2
         else w1)
  ∧ (∀ w0 w', state (actor w') = started →
       loadVersion c w' = loadVersion c w0 →
       handle run_route run_event c w0 = fst (Next c w') →
       dispatch_ctx run_route run_event run_defer c w0 = fst (Next c w'))
  ∧ (∀ w0 w', state (actor w') = started →
       loadVersion c w' = loadVersion c w0 →
       loadVersion c (handle run_route run_event c w0) = loadVersion c w0 →
       run_defer c (emit (EExecDefer c) (handle run_route run_event c w0))
         = fst (Next c w') →
       dispatch_ctx run_route run_event run_defer c w0 = fst (Next c w')).
Proof.
  intros Hs. split; [|split; [|split; [|split]]].
  - intros cs c'. by apply Nexts_version.
  - rewrite !(Nexts_version _ w c Hs). simpl.
    rewrite bool_decide_eq_true_2 by done. lia.
  - intros w0. apply dispatch_ctx_gate.
  - intros w0 w' Hs' Hv Hh. rewrite dispatch_ctx_gate, Hh.
    destruct (Next_started_version c w' Hs') as [_ Hbump].
    rewrite (Hbump c), (bool_decide_eq_true_2 (c = c) eq_refl).
    rewrite bool_decide_eq_false_2; [reflexivity|]. lia.
  - intros w0 w' Hs' Hv Hh Hd. rewrite dispatch_ctx_gate, Hh, Hd.
    rewrite (bool_decide_eq_true_2 (loadVersion c w0 = loadVersion c w0) eq_refl).
    destruct (Next_started_version c w' Hs') as [_ Hbump].
    rewrite (Hbump c), (bool_decide_eq_true_2 (c = c) eq_refl).
    rewrite bool_decide_eq_false_2; [reflexivity|]. lia.
Qed.

Lemma version_gate_witness :
  loadVersion 1%nat (Nexts [1%nat] world5) < loadVersion 1%nat (Nexts [1%nat; 1%nat] world5)
  ∧ dispatch_ctx forwarding_handler idle_handler idle_defer 1%nat
      (dequeued [] (Nexts [1%nat] world5))
    = fst (Next 1%nat (emit (ERouteHandler 5%nat 1%nat)
                         (dequeued [] (Nexts [1%nat] world5))))
  ∧ log (dispatch_ctx forwarding_handler idle_handler idle_defer 1%nat
           (dequeued [] (Nexts [1%nat] world5)))
    = [EIncrVersion 1%nat; ECancel 1%nat; ESendMailbox 1%nat;
       ERouteHandler 5%nat 1%nat;
       EIncrVersion 1%nat; ECancel 1%nat; ESendMailbox 1%nat]
  ∧ log (dispatch_ctx idle_handler idle_handler forwarding_defer 1%nat
           (dequeued [] (Nexts [1%nat] world5)))
    = [EIncrVersion 1%nat; ECancel 1%nat; ESendMailbox 1%nat;
       ERouteHandler 5%nat 1%nat; EExecDefer 1%nat;
       EIncrVersion 1%nat; ECancel 1%nat; ESendMailbox 1%nat].
Proof.
  destruct (version_gate forwarding_handler idle_handler idle_defer world5 1%nat
              eq_refl) as (_ & Hlt & _ & Hskip & _).
  destruct (version_gate idle_handler idle_handler forwarding_defer world5 1%nat
              eq_refl) as (_ & _ & _ & _ & Hfin).
  split; [exact Hlt|]. split; [|split].
  - apply Hskip; reflexivity.
  - by vm_compute.
  - rewrite (Hfin (dequeued [] (Nexts [1%nat] world5))
               (emit (EExecDefer 1%nat)
                  (emit (ERouteHandler 5%nat 1%nat)
                     (dequeued [] (Nexts [1%nat] world5))))
               eq_refl eq_refl eq_refl eq_refl).
    by vm_compute.
Defined.

(** * Further properties of the actor *)

(** ** Addresses *)

Lemma append_slash_inj (k1 : string) :
  ∀ (k2 i1 i2 : string),
    has_slash k1 = false → has_slash k2 = false →
    k1 +:+ "/" +:+ i1 = k2 +:+ "/" +:+ i2 →
    k1 = k2 ∧ i1 = i2.
Proof.
  assert (Hnil : ∀ s, "" +:+ s = s) by reflexivity.
  assert (Hcons : ∀ c s t, String c s +:+ t = String c (s +:+ t)) by reflexivity.
  induction k1 as [|a k1 IH]; intros [|b k2] i1 i2 H1 H2 Heq;
    rewrite ?Hnil, ?Hcons in Heq; simpl in H1, H2.
  - injection Heq as Heq. by split.
  - injection Heq as <- _. by rewrite bool_decide_eq_true_2 in H2.
  - injection Heq as -> _. by rewrite bool_decide_eq_true_2 in H1.
  - injection Heq as -> Heq.
    apply orb_false_iff in H1 as [_ H1]. apply orb_false_iff in H2 as [_ H2].
    destruct (IH k2 i1 i2 H1 H2 Heq) as [-> ->]. by split.
Qed.

(** X1: two actors whose kinds hold no slash and whose PIDs are equal have
    the same kind and the same id.  Without the condition on the kinds the
    PID does not tell actors apart: kind ["a/b"] with id ["c"] and kind ["a"]
    with id ["b/c"] share the PID ["a/b/c"]. *)
Theorem PID_injective (a b : Actor) :
  (has_slash (Kind a) = false → has_slash (Kind b) = false →
   PID a = PID b → Kind a = Kind b ∧ ID a = ID b)
  ∧ PID (actor_of "a/b" "c") = PID (actor_of "a" "b/c").
Proof.
  split; [|reflexivity].
  intros Ha Hb Heq. unfold PID in Heq. by apply append_slash_inj.
Qed.

Lemma PID_injective_witness :
  PID (actor_of "room" "1") = "room/1"
  ∧ (PID (actor_of "room" "1") = PID (actor0 started 4) →
     Kind (actor_of "room" "1") = Kind (actor0 started 4)
     ∧ ID (actor_of "room" "1") = ID (actor0 started 4)).
Proof.
  split; [reflexivity|].
  apply (PID_injective (actor_of "room" "1") (actor0 started 4)); reflexivity.
Defined.

(** ** The membership set, continued *)

(** X2: binding a user that is not bound and unbinding it again gives the
    actor back, and so does unbinding a bound user and binding it again;
    binding twice is binding once; neither call changes whether another user
    is bound, nor any other field of the actor. *)
Theorem bindUser_unbindUser_round_trip (a : Actor) (uid : Z) :
  (uid ∉ binds a → fst (unbindUser uid (bindUser uid a)) = a)
  ∧ (uid ∈ binds a → bindUser uid (fst (unbindUser uid a)) = a)
  ∧ bindUser uid (bindUser uid a) = bindUser uid a
  ∧ (∀ uid', uid' ≠ uid →
       (uid' ∈ binds (bindUser uid a) ↔ uid' ∈ binds a)
       ∧ (uid' ∈ binds (fst (unbindUser uid a)) ↔ uid' ∈ binds a))
  ∧ (∀ a', a' = bindUser uid a ∨ a' = fst (unbindUser uid a) →
       a' = set_binds (binds a') a).
Proof.
  split; [|split; [|split; [|split]]].
  - intros Hn. unfold unbindUser, bindUser, set_binds; simpl.
    destruct a; simpl in *. f_equal. set_solver.
  - intros Hin. unfold unbindUser, bindUser, set_binds; simpl.
    destruct a as [? ? ? ? ? ? ? b]; simpl in *. f_equal.
    apply set_eq. intros x. rewrite elem_of_union, elem_of_difference,
      elem_of_singleton. split; [intros [->|[? _]]; done|].
    intros Hx. destruct (decide (x = uid)); [by left|by right].
  - unfold bindUser, set_binds; simpl. f_equal. set_solver.
  - intros uid' Hne. unfold unbindUser, bindUser; simpl. set_solver.
  - intros a' [-> | ->]; reflexivity.
Qed.

Lemma bindUser_unbindUser_round_trip_witness :
  fst (unbindUser 42 (bindUser 42 (actor0 started 4))) = actor0 started 4
  ∧ bindUser 42 (fst (unbindUser 42 (actor world42))) = actor world42.
Proof.
  split.
  - destruct (bindUser_unbindUser_round_trip (actor0 started 4) 42) as [H _].
    apply H. vm_compute. discriminate.
  - destruct (bindUser_unbindUser_round_trip (actor world42) 42) as (_ & H & _).
    apply H. by vm_compute.
Defined.

(** ** The removal callback of Destroy *)

Lemma lookup_deleteRelation (kind : string) (uid u : Z)
    (relations : gmap Z (gmap string string)) :
  deleteRelation kind uid relations !! u =
    if bool_decide (u = uid) then delete kind <$> relations !! u
    else relations !! u.
Proof.
  unfold deleteRelation. case_bool_decide as Hu; subst.
  - destruct (relations !! uid) as [m|] eqn:Hm.
    + by rewrite lookup_insert_eq.
    + by rewrite Hm.
  - destruct (relations !! uid) as [m|]; [|reflexivity].
    by rewrite lookup_insert_ne.
Qed.

Lemma lookup_foldr_deleteRelation (kind : string) (uids : list Z) :
  ∀ (relations : gmap Z (gmap string string)) (u : Z),
    foldr (deleteRelation kind) relations uids !! u =
      if bool_decide (u ∈ uids) then delete kind <$> relations !! u
      else relations !! u.
Proof.
  induction uids as [|uid rest IH]; intros relations u; cbn [foldr].
  - rewrite bool_decide_eq_false_2; [reflexivity|]. apply not_elem_of_nil.
  - rewrite lookup_deleteRelation, IH.
    case_bool_decide as H1.
    + subst. rewrite (bool_decide_eq_true_2 (uid ∈ uid :: rest))
        by (apply elem_of_cons; by left).
      case_bool_decide; [|reflexivity].
      destruct (relations !! uid) as [m|]; [|reflexivity].
      simpl. by rewrite delete_delete_eq.
    + case_bool_decide as H2.
      * rewrite bool_decide_eq_true_2; [reflexivity|].
        apply elem_of_cons. by right.
      * rewrite bool_decide_eq_false_2; [reflexivity|].
        apply not_elem_of_cons. by split.
Qed.

(** X3: the callback that [Destroy] hands to the scheduler deletes, for
    every bound user that has an entry, the actor's kind from that user's
    inner map and nothing else: the entries of users that are not bound are
    untouched, other kinds are untouched, and no user is removed from the
    outer table, a user whose only relation was this kind keeping an empty
    inner map. *)
Theorem unbindAll_lookup (a : Actor) (relations : gmap Z (gmap string string)) :
  (∀ uid, unbindAll a relations !! uid =
     if bool_decide (uid ∈ binds a)
     then delete (Kind a) <$> relations !! uid
     else relations !! uid)
  ∧ dom (unbindAll a relations) = dom relations
  ∧ (∀ uid, uid ∈ binds a →
       relations !! uid = Some {[ Kind a := PID a ]} →
       unbindAll a relations !! uid = Some ∅).
Proof.
  assert (Hl : ∀ uid, unbindAll a relations !! uid =
     if bool_decide (uid ∈ binds a)
     then delete (Kind a) <$> relations !! uid
     else relations !! uid).
  { intros uid. unfold unbindAll. rewrite lookup_foldr_deleteRelation.
    destruct (decide (uid ∈ binds a)) as [Hin|Hnin].
    - rewrite (bool_decide_eq_true_2 _ Hin).
      rewrite bool_decide_eq_true_2; [reflexivity|]. by apply elem_of_elements.
    - rewrite (bool_decide_eq_false_2 _ Hnin).
      rewrite bool_decide_eq_false_2; [reflexivity|]. by rewrite elem_of_elements. }
  split; [exact Hl|]. split.
  - apply set_eq. intros uid. rewrite !elem_of_dom, Hl.
    case_bool_decide; [|reflexivity]. apply fmap_is_Some.
  - intros uid Hin Hrel. rewrite Hl, (bool_decide_eq_true_2 _ Hin), Hrel.
    simpl. by rewrite delete_singleton_eq.
Qed.

Lemma unbindAll_lookup_witness :
  unbindAll (actor world42) (Scheduler.relations (scheduler world42)) !! 42
    = Some ∅.
Proof.
  destruct (unbindAll_lookup (actor world42)
              (Scheduler.relations (scheduler world42))) as (_ & _ & H).
  apply H.
  - by vm_compute.
  - reflexivity.
Defined.

(** ** The life cycle under calls from outside *)

Lemma api_call_wf (k : ApiCall) (w : World) : wf w → wf (fst (api_call k w)).
Proof.
  destruct k; simpl; [apply wf_Invoke | apply wf_AddRouteHandler
    | apply wf_AddEventHandler | apply wf_Next | apply wf_Destroy].
Qed.

Lemma api_call_state (k : ApiCall) (w : World) :
  wf w →
  state (actor (fst (api_call k w))) =
    if bool_decide (k = CallDestroy ∧ state (actor w) = started)
    then destroyed else state (actor w).
Proof.
  intros Hwf.
  assert (Hfn : ∀ f, state (actor (fst (send_fnChan f w))) = state (actor w)).
  { intros f. by destruct (send_fnChan_frame f w) as [-> _]. }
  destruct k; cbn [api_call].
  1-4: rewrite bool_decide_eq_false_2 by (intros [? _]; discriminate).
  - unfold Invoke. case_bool_decide; [reflexivity|apply Hfn].
  - unfold AddRouteHandler. repeat case_bool_decide; [reflexivity|apply Hfn|reflexivity].
  - unfold AddEventHandler. repeat case_bool_decide; [reflexivity|apply Hfn|reflexivity].
  - unfold Next. case_bool_decide; [reflexivity|].
    by destruct (send_mailbox_frame c (Cancel c (incrVersion c w))) as [-> _].
  - destruct (decide (state (actor w) = started)) as [Hs|Hs].
    + rewrite bool_decide_eq_true_2 by done.
      destruct (wf_started_open w Hwf Hs) as [Hm Hf].
      by rewrite (Destroy_started w Hs Hm Hf).
    + rewrite bool_decide_eq_false_2 by (intros [_ ?]; done).
      by rewrite (Destroy_not_started w Hs).
Qed.

Lemma api_call_no_panic (k : ApiCall) (w : World) :
  wf w → snd (api_call k w) ≠ Panicked.
Proof.
  intros Hwf.
  assert (Hfn : ∀ f, state (actor w) = started →
                     snd (send_fnChan f w) ≠ Panicked).
  { intros f Hs. destruct (wf_started_open w Hwf Hs) as [_ Hf].
    unfold send_fnChan, Chan.send. rewrite Hf.
    by destruct (Chan.has_room (fnChan (actor w))). }
  destruct k; simpl.
  - unfold Invoke. case_bool_decide as Hs; [done|].
    apply Hfn. by destruct (decide (state (actor w) = started)).
  - unfold AddRouteHandler. repeat case_bool_decide; [done|by apply Hfn|done].
  - unfold AddEventHandler. repeat case_bool_decide; [done|by apply Hfn|done].
  - unfold Next. case_bool_decide as Hs; [done|].
    assert (Hs' : state (actor w) = started)
      by (by destruct (decide (state (actor w) = started))).
    destruct (wf_started_open w Hwf Hs') as [Hm _].
    unfold send_mailbox, Chan.send.
    replace (mailbox (actor (Cancel c (incrVersion c w)))) with (mailbox (actor w))
      by reflexivity.
    rewrite Hm. by destruct (Chan.has_room (mailbox (actor w))).
  - destruct (decide (state (actor w) = started)) as [Hs|Hs].
    + destruct (wf_started_open w Hwf Hs) as [Hm Hf].
      by rewrite (Destroy_started w Hs Hm Hf).
    + by rewrite (Destroy_not_started w Hs).
Qed.

Lemma api_call_destroyed (k : ApiCall) (w : World) :
  state (actor w) = destroyed → api_call k w = (w, Returned).
Proof.
  intros Hd.
  assert (Hns : state (actor w) ≠ started) by (rewrite Hd; discriminate).
  assert (Hnu : state (actor w) ≠ unstart) by (rewrite Hd; discriminate).
  destruct k; simpl.
  - unfold Invoke. by rewrite (bool_decide_eq_true_2 _ Hns).
  - unfold AddRouteHandler.
    by rewrite (bool_decide_eq_false_2 _ Hnu), (bool_decide_eq_false_2 _ Hns).
  - unfold AddEventHandler.
    by rewrite (bool_decide_eq_false_2 _ Hnu), (bool_decide_eq_false_2 _ Hns).
  - unfold Next. by rewrite (bool_decide_eq_true_2 _ Hns).
  - by apply Destroy_not_started.
Qed.

Lemma api_call_blocked (k : ApiCall) (w : World) :
  wf w → snd (api_call k w) = Blocked →
  state (actor w) = started ∧ state (actor (fst (api_call k w))) = started.
Proof.
  intros Hwf Hb. pose proof (api_call_state k w Hwf) as Hst.
  destruct (decide (state (actor w) = started)) as [Hs|Hs].
  - split; [exact Hs|]. rewrite Hst.
    rewrite bool_decide_eq_false_2; [exact Hs|].
    intros [-> _]. cbn [api_call] in Hb.
    destruct (wf_started_open w Hwf Hs) as [Hm Hf].
    rewrite (Destroy_started w Hs Hm Hf) in Hb. discriminate.
  - exfalso. destruct k; cbn [api_call] in Hb.
    + unfold Invoke in Hb. rewrite (bool_decide_eq_true_2 _ Hs) in Hb. discriminate.
    + unfold AddRouteHandler in Hb. rewrite (bool_decide_eq_false_2 _ Hs) in Hb.
      destruct (bool_decide (state (actor w) = unstart)); discriminate.
    + unfold AddEventHandler in Hb. rewrite (bool_decide_eq_false_2 _ Hs) in Hb.
      destruct (bool_decide (state (actor w) = unstart)); discriminate.
    + unfold Next in Hb. rewrite (bool_decide_eq_true_2 _ Hs) in Hb. discriminate.
    + rewrite (Destroy_not_started w Hs) in Hb. discriminate.
Qed.

(** X4: for a series of [Invoke], [AddRouteHandler], [AddEventHandler],
    [Next] and [Destroy] calls made by one caller, each after the one before
    it returned, on an actor whose channels are closed exactly when it is
    destroyed: no call panics and the channels stay closed exactly when the
    actor is destroyed.  On an actor that is not started every call returns
    and the state stays what it was (none of these calls starts an actor); on
    a started actor the series either returns, with the actor destroyed if
    the series holds a [Destroy] and started otherwise, or ends blocked at a
    full channel with the actor still started; on a destroyed actor the
    series changes nothing at all. *)
Theorem api_calls_life_cycle (ks : list ApiCall) (w : World) :
  wf w →
  wf (fst (api_calls ks w))
  ∧ snd (api_calls ks w) ≠ Panicked
  ∧ (state (actor w) ≠ started →
       snd (api_calls ks w) = Returned
       ∧ state (actor (fst (api_calls ks w))) = state (actor w))
  ∧ (state (actor w) = started → snd (api_calls ks w) = Returned →
       state (actor (fst (api_calls ks w))) =
         if bool_decide (CallDestroy ∈ ks) then destroyed else started)
  ∧ (state (actor w) = started → snd (api_calls ks w) = Blocked →
       state (actor (fst (api_calls ks w))) = started)
  ∧ (state (actor w) = destroyed → api_calls ks w = (w, Returned)).
Proof.
  revert w. induction ks as [|k rest IH]; intros w Hwf.
  - cbn [api_calls fst snd].
    split; [exact Hwf|]. split; [discriminate|]. split; [done|].
    split; [|split; [discriminate|done]]. intros Hs _.
    rewrite bool_decide_eq_false_2; [exact Hs|apply not_elem_of_nil].
  - pose proof (api_call_wf k w Hwf) as Hwf1.
    pose proof (api_call_state k w Hwf) as Hst.
    pose proof (api_call_no_panic k w Hwf) as Hnp.
    pose proof (api_call_blocked k w Hwf) as Hbl.
    cbn [api_calls]. unfold and_then.
    destruct (api_call k w) as [w1 o] eqn:Hk. cbn [fst snd] in *.
    destruct o; [|clear IH|done].
    + destruct (IH _ Hwf1) as (IHwf & IHp & IHns & IHs & IHb & IHd).
      split; [exact IHwf|]. split; [exact IHp|]. split; [|split; [|split]].
      * intros Hns.
        rewrite bool_decide_eq_false_2 in Hst by (intros [_ ?]; done).
        rewrite <- Hst. apply IHns. by rewrite Hst.
      * intros Hs Hr. destruct (decide (k = CallDestroy)) as [->|Hne].
        -- rewrite bool_decide_eq_true_2 in Hst by done.
           destruct (IHns ltac:(rewrite Hst; discriminate)) as [_ ->].
           rewrite Hst, bool_decide_eq_true_2; [reflexivity|].
           apply elem_of_cons. by left.
        -- rewrite bool_decide_eq_false_2 in Hst by (intros [? _]; done).
           rewrite (IHs ltac:(by rewrite Hst) Hr).
           assert (Hiff : CallDestroy ∈ k :: rest ↔ CallDestroy ∈ rest)
             by (rewrite elem_of_cons; naive_solver).
           by rewrite (bool_decide_ext _ _ Hiff).
      * intros Hs Hb. destruct (decide (k = CallDestroy)) as [->|Hne].
        -- rewrite bool_decide_eq_true_2 in Hst by done.
           destruct (IHns ltac:(rewrite Hst; discriminate)) as [Hr _].
           rewrite Hr in Hb. discriminate.
        -- rewrite bool_decide_eq_false_2 in Hst by (intros [? _]; done).
           apply IHb; [by rewrite Hst|exact Hb].
      * intros Hd. pose proof (api_call_destroyed k w Hd) as Hkd.
        rewrite Hk in Hkd. injection Hkd as ->. by apply IHd.
    + split; [exact Hwf1|]. split; [discriminate|].
      destruct (Hbl eq_refl) as [Hs Hs1].
      split; [intros Hns; contradiction|].
      split; [discriminate|]. split; [intros _ _; exact Hs1|].
      intros Hd. rewrite Hd in Hs. discriminate.
Qed.

Lemma api_calls_life_cycle_witness :
  state (actor (fst (api_calls [CallNext 1%nat; CallDestroy; CallNext 2%nat;
                                CallAddRouteHandler 10 7%nat; CallDestroy]
                               world5))) = destroyed
  ∧ state (actor (fst (api_calls [CallNext 1%nat; CallDestroy]
                                 (world0 unstart 4)))) = unstart
  ∧ state (actor (fst (api_calls [CallNext 1%nat; CallNext 2%nat; CallNext 3%nat;
                                  CallNext 4%nat; CallNext 5%nat; CallDestroy]
                                 world5))) = started
  ∧ api_calls [CallNext 1%nat; CallInvoke 2%nat] world_gone
    = (world_gone, Returned).
Proof.
  assert (H5 : wf world5) by (split; reflexivity).
  assert (Hu : wf (world0 unstart 4)) by (apply wf_world0; discriminate).
  assert (Hd : wf world_gone) by (split; reflexivity).
  split; [|split; [|split]].
  - destruct (api_calls_life_cycle
                [CallNext 1%nat; CallDestroy; CallNext 2%nat;
                 CallAddRouteHandler 10 7%nat; CallDestroy] world5 H5)
      as (_ & _ & _ & Hs & _).
    rewrite (Hs eq_refl eq_refl). reflexivity.
  - destruct (api_calls_life_cycle [CallNext 1%nat; CallDestroy]
                (world0 unstart 4) Hu) as (_ & _ & Hns & _).
    apply Hns. simpl. discriminate.
  - destruct (api_calls_life_cycle
                [CallNext 1%nat; CallNext 2%nat; CallNext 3%nat;
                 CallNext 4%nat; CallNext 5%nat; CallDestroy] world5 H5)
      as (_ & _ & _ & _ & Hb & _).
    exact (Hb eq_refl eq_refl).
  - destruct (api_calls_life_cycle [CallNext 1%nat; CallInvoke 2%nat]
                world_gone Hd) as (_ & _ & _ & _ & _ & Hdd).
    exact (Hdd eq_refl).
Defined.

(** ** When the worker stops *)

(** X5: a round of the worker's loop goes on whenever the picked channel
    holds a value, returns only when the picked channel is closed and empty,
    leaving the world as it is, and cannot fire when the channel is open and
    empty.  So while the channels are closed exactly when the actor is
    destroyed, the worker of an actor that is not destroyed never returns,
    and the worker of a destroyed actor returns on the first pick of an empty
    channel. *)
Theorem worker_returns_only_when_closed
    (run_route : RouteHandler → CtxRef → World → World * bool)
    (run_event : EventHandler → CtxRef → World → World * bool)
    (run_defer : CtxRef → World → World)
    (run_fn : nat → World → World * bool)
    (p : Pick) (w : World) :
  let empty := match p with
               | PickMailbox => bool_decide (Chan.buf (mailbox (actor w)) = [])
               | PickFnChan => bool_decide (Chan.buf (fnChan (actor w)) = [])
               end in
  let closed := match p with
                | PickMailbox => Chan.closed (mailbox (actor w))
                | PickFnChan => Chan.closed (fnChan (actor w))
                end in
  (empty = false → ∃ w', dispatch_step run_route run_event run_defer run_fn p w = Continue w')
  ∧ (empty = true → closed = true →
       dispatch_step run_route run_event run_defer run_fn p w = Exit w)
  ∧ (empty = true → closed = false →
       dispatch_step run_route run_event run_defer run_fn p w = NotReady)
  ∧ (wf w → state (actor w) ≠ destroyed →
       ∀ w', dispatch_step run_route run_event run_defer run_fn p w ≠ Exit w')
  ∧ (wf w → state (actor w) = destroyed → empty = true →
       ∀ picks, dispatch run_route run_event run_defer run_fn (p :: picks) w = (w, true)).
Proof.
  intros empty closed.
  assert (Hcases :
    (empty = false → ∃ w', dispatch_step run_route run_event run_defer run_fn p w = Continue w')
    ∧ (empty = true → closed = true →
         dispatch_step run_route run_event run_defer run_fn p w = Exit w)
    ∧ (empty = true → closed = false →
         dispatch_step run_route run_event run_defer run_fn p w = NotReady)).
  { subst empty closed. destruct p; unfold dispatch_step, Chan.recv.
    - destruct (Chan.buf (mailbox (actor w))) as [|c rest].
      + split; [intros H; by rewrite bool_decide_eq_true_2 in H|].
        split; intros _ ->; reflexivity.
      + split; [intros _; by eexists|].
        split; intros H; by rewrite bool_decide_eq_false_2 in H.
    - destruct (Chan.buf (fnChan (actor w))) as [|f rest].
      + split; [intros H; by rewrite bool_decide_eq_true_2 in H|].
        split; intros _ ->; reflexivity.
      + split; [intros _; by eexists|].
        split; intros H; by rewrite bool_decide_eq_false_2 in H. }
  destruct Hcases as (Hgo & Hexit & Hwait).
  split; [exact Hgo|]. split; [exact Hexit|]. split; [exact Hwait|].
  assert (Hclosed : wf w → closed = bool_decide (state (actor w) = destroyed)).
  { intros [Hm Hf]. subst closed. by destruct p. }
  split.
  - intros Hwf Hnd w' Hstep.
    pose proof (Hclosed Hwf) as Hc.
    rewrite bool_decide_eq_false_2 in Hc by exact Hnd.
    destruct empty eqn:He.
    + rewrite (Hwait eq_refl Hc) in Hstep. discriminate.
    + destruct (Hgo eq_refl) as [w'' Hw'']. rewrite Hw'' in Hstep. discriminate.
  - intros Hwf Hd He picks.
    pose proof (Hclosed Hwf) as Hc.
    rewrite bool_decide_eq_true_2 in Hc by exact Hd.
    cbn [dispatch]. by rewrite (Hexit He Hc).
Qed.

Lemma worker_returns_only_when_closed_witness :
  (∀ w', dispatch_step idle_handler idle_handler idle_defer idle_fn PickMailbox
           (Nexts [1%nat] world5) ≠ Exit w')
  ∧ dispatch idle_handler idle_handler idle_defer idle_fn [PickFnChan; PickMailbox] world_gone
    = (world_gone, true).
Proof.
  split.
  - destruct (worker_returns_only_when_closed idle_handler idle_handler idle_defer idle_fn
                PickMailbox (Nexts [1%nat] world5)) as (_ & _ & _ & H & _).
    apply H; [split; reflexivity|]. simpl. discriminate.
  - destruct (worker_returns_only_when_closed idle_handler idle_handler idle_defer idle_fn
                PickFnChan world_gone) as (_ & _ & _ & _ & H).
    apply H; [split; reflexivity|reflexivity|reflexivity].
Defined.

(** X6: [Destroy] closes the channels without emptying them.  A context
    that was in the mailbox of a started actor when it was destroyed is still
    dispatched, with the actor in state [destroyed], if the worker picks the
    mailbox; but if the control queue is empty and the worker picks it, the
    worker returns for good and the contexts left in the mailbox are never
    dispatched. *)
Theorem Destroy_leaves_queues
    (run_route : RouteHandler → CtxRef → World → World * bool)
    (run_event : EventHandler → CtxRef → World → World * bool)
    (run_defer : CtxRef → World → World)
    (run_fn : nat → World → World * bool)
    (w : World) (c : CtxRef) (rest : list CtxRef) :
  state (actor w) = started →
  wf w →
  Chan.buf (mailbox (actor w)) = c :: rest →
  let w1 := fst (Destroy w) in
  Chan.buf (mailbox (actor w1)) = c :: rest
  ∧ Chan.buf (fnChan (actor w1)) = Chan.buf (fnChan (actor w))
  ∧ state (actor (dequeued rest w1)) = destroyed
  ∧ dispatch_step run_route run_event run_defer run_fn PickMailbox w1
    = Continue (dispatch_ctx run_route run_event run_defer c (dequeued rest w1))
  ∧ (Chan.buf (fnChan (actor w)) = [] →
       ∀ picks, dispatch run_route run_event run_defer run_fn (PickFnChan :: picks) w1
                = (w1, true)).
Proof.
  intros Hs Hwf Hb w1. destruct (wf_started_open w Hwf Hs) as [Hm Hf].
  subst w1. rewrite (Destroy_started w Hs Hm Hf). cbn [fst].
  assert (Hb1 : Chan.buf (mailbox (actor (closed_down (Destroy_unbind w)))) = c :: rest)
    by exact Hb.
  split; [exact Hb1|]. split; [reflexivity|]. split; [reflexivity|]. split.
  - by apply dispatch_step_mailbox_head.
  - intros He picks. cbn [dispatch]. unfold dispatch_step, Chan.recv.
    replace (Chan.buf (fnChan (actor (closed_down (Destroy_unbind w)))))
      with (Chan.buf (fnChan (actor w))) by reflexivity.
    by rewrite He.
Qed.

Lemma Destroy_leaves_queues_witness :
  Chan.buf (mailbox (actor (fst (Destroy (Nexts [1%nat; 2%nat] world5)))))
    = [1%nat; 2%nat]
  ∧ dispatch idle_handler idle_handler idle_defer idle_fn [PickFnChan; PickMailbox; PickMailbox]
      (fst (Destroy (Nexts [1%nat; 2%nat] world5)))
    = (fst (Destroy (Nexts [1%nat; 2%nat] world5)), true).
Proof.
  assert (Hwf : wf (Nexts [1%nat; 2%nat] world5)) by (split; reflexivity).
  destruct (Destroy_leaves_queues idle_handler idle_handler idle_defer idle_fn
              (Nexts [1%nat; 2%nat] world5) 1%nat [2%nat] eq_refl Hwf eq_refl)
    as (Hb & _ & _ & _ & Hexit).
  split; [exact Hb|]. exact (Hexit eq_refl _).
Defined.

(** ** The mailbox as a bounded queue *)

Lemma Next_started_mailbox (c : CtxRef) (w : World) :
  state (actor w) = started → wf w →
  mailbox (actor (fst (Next c w))) =
    if Chan.has_room (mailbox (actor w))
    then Chan.mk (Chan.buf (mailbox (actor w)) ++ [c])
                 (Chan.cap (mailbox (actor w))) false
    else mailbox (actor w).
Proof.
  intros Hs Hwf. destruct (wf_started_open w Hwf Hs) as [Hm _].
  unfold Next. rewrite bool_decide_eq_false_2 by (intros H; by apply H).
  unfold send_mailbox.
  replace (mailbox (actor (Cancel c (incrVersion c w)))) with (mailbox (actor w))
    by reflexivity.
  destruct (Chan.has_room (mailbox (actor w))) eqn:Hr.
  - by rewrite (send_open_room _ _ Hm Hr).
  - by rewrite (send_open_full _ _ Hm Hr).
Qed.

(** X7: on a started actor a series of [Next] calls appends the contexts to
    the mailbox in call order until the mailbox is full: the buffer after the
    series is the buffer before followed by as many of the first contexts of
    the series as there was room for.  The capacity does not change, a
    buffer within its capacity stays within it, and the actor stays
    started. *)
Theorem Nexts_mailbox (cs : list CtxRef) (w : World) :
  state (actor w) = started →
  wf w →
  Chan.buf (mailbox (actor (Nexts cs w))) =
    Chan.buf (mailbox (actor w))
    ++ take (Chan.cap (mailbox (actor w)) - length (Chan.buf (mailbox (actor w)))) cs
  ∧ Chan.cap (mailbox (actor (Nexts cs w))) = Chan.cap (mailbox (actor w))
  ∧ ((length (Chan.buf (mailbox (actor w))) ≤ Chan.cap (mailbox (actor w)))%nat →
     (length (Chan.buf (mailbox (actor (Nexts cs w))))
        ≤ Chan.cap (mailbox (actor w)))%nat)
  ∧ state (actor (Nexts cs w)) = started
  ∧ wf (Nexts cs w).
Proof.
  revert w. induction cs as [|c rest IH]; intros w Hs Hwf.
  - cbn [Nexts]. rewrite take_nil, app_nil_r.
    split; [done|split; [done|split; [done|split; [exact Hs|exact Hwf]]]].
  - cbn [Nexts].
    destruct (Next_started_version c w Hs) as [Hs1 _].
    pose proof (wf_Next c w Hwf) as Hwf1.
    pose proof (Next_started_mailbox c w Hs Hwf) as Hmb.
    destruct (IH _ Hs1 Hwf1) as (IHb & IHc & IHl & IHs & IHwf).
    rewrite Hmb in IHb, IHc, IHl. unfold Chan.has_room in *.
    case_bool_decide as Hr; cbn [Chan.buf Chan.cap] in IHb, IHc, IHl.
    + split; [|split; [exact IHc|split; [|by split]]].
      * rewrite IHb, length_app. cbn [length].
        replace (Chan.cap (mailbox (actor w))
                 - length (Chan.buf (mailbox (actor w))))%nat
          with (S (Chan.cap (mailbox (actor w))
                   - (length (Chan.buf (mailbox (actor w))) + 1)))%nat by lia.
        cbn [take]. by rewrite <- app_assoc.
      * intros _. apply IHl. rewrite length_app. cbn [length]. lia.
    + split; [|split; [exact IHc|split; [exact IHl|by split]]].
      rewrite IHb.
      replace (Chan.cap (mailbox (actor w))
               - length (Chan.buf (mailbox (actor w))))%nat with O by lia.
      by rewrite !take_0.
Qed.

Lemma Nexts_mailbox_witness :
  Chan.buf (mailbox (actor (Nexts [1%nat; 2%nat; 3%nat; 4%nat; 5%nat; 6%nat] world5)))
    = [1%nat; 2%nat; 3%nat; 4%nat].
Proof.
  assert (Hwf : wf world5) by (split; reflexivity).
  destruct (Nexts_mailbox [1%nat; 2%nat; 3%nat; 4%nat; 5%nat; 6%nat] world5
              eq_refl Hwf) as (Hb & _).
  exact Hb.
Defined.

(** ** Registration on a started actor *)

Lemma foldl_publish_route_lookup (kind : string) (calls : list (Z * RouteHandler)) :
  ∀ (m : gmap Z string) (route : Z),
    foldl (publish_route kind) m calls !! route =
      match last_write calls route with
      | Some _ => Some kind
      | None => m !! route
      end.
Proof.
  induction calls as [|[r h] rest IH]; intros m route; [reflexivity|].
  cbn [foldl last_write]. rewrite IH. unfold publish_route; cbn [fst snd].
  destruct (last_write rest route) as [h'|]; [reflexivity|].
  case_bool_decide as Hr.
  - subst. by rewrite lookup_insert_eq.
  - by rewrite lookup_insert_ne.
Qed.

Lemma registrations_run
    (run_route : RouteHandler → CtxRef → World → World * bool)
    (run_event : EventHandler → CtxRef → World → World * bool)
    (run_defer : CtxRef → World → World)
    (run_fn : nat → World → World * bool)
    (calls : list (Z * RouteHandler)) (rest : list Fn) :
  ∀ w, Chan.buf (fnChan (actor w)) = route_closures calls ++ rest →
    ∃ w', dispatch run_route run_event run_defer run_fn
            (replicate (length calls) PickFnChan) w = (w', false)
      ∧ routes (actor w') = foldl write_route (routes (actor w)) calls
      ∧ Scheduler.routes (scheduler w')
        = foldl (publish_route (Kind (actor w))) (Scheduler.routes (scheduler w)) calls
      ∧ Chan.buf (fnChan (actor w')) = rest
      ∧ log w' = log w ++ map EFn (route_closures calls)
      ∧ events (actor w') = events (actor w)
      ∧ mailbox (actor w') = mailbox (actor w)
      ∧ state (actor w') = state (actor w)
      ∧ Scheduler.relations (scheduler w') = Scheduler.relations (scheduler w)
      ∧ ctxs w' = ctxs w.
Proof.
  induction calls as [|[r h] calls IH]; intros w Hb.
  - exists w. cbn [length replicate dispatch route_closures map foldl].
    rewrite app_nil_r. by repeat (split; [done|]).
  - cbn [length replicate dispatch].
    rewrite (dispatch_step_fnChan_head _ _ _ _ w _ _ Hb).
    cbn [xcall_Call run_Fn fst snd].
    match goal with |- ∃ w', dispatch _ _ _ _ _ ?w1 = _ ∧ _ =>
      destruct (IH w1 eq_refl)
        as (w' & Hd & Hr & Hsr & Hf & Hl & He & Hm & Hst & Hrel & Hc)
    end.
    exists w'. split; [exact Hd|].
    split; [exact Hr|]. split; [exact Hsr|]. split; [exact Hf|].
    split; [|by repeat (split; [assumption|])].
    rewrite Hl. cbn [route_closures map log emit with_scheduler with_actor fst snd].
    by rewrite <- app_assoc.
Qed.

(** X8: when the control queue of an actor starts with the closures of a
    series of [AddRouteHandler] calls, the worker, taking them one by one,
    leaves the route table that the same series of direct writes would have
    given: every route written holds its last handler, every other route
    holds what it held.  Every route written is stored in the scheduler's
    route table under the actor's kind, routes not written keep their
    scheduler entry, and the event table, the mailbox, the state and the
    relation table are untouched. *)
Theorem registrations_applied_in_order
    (run_route : RouteHandler → CtxRef → World → World * bool)
    (run_event : EventHandler → CtxRef → World → World * bool)
    (run_defer : CtxRef → World → World)
    (run_fn : nat → World → World * bool)
    (calls : list (Z * RouteHandler)) (rest : list Fn) (w : World) :
  Chan.buf (fnChan (actor w)) = route_closures calls ++ rest →
  ∃ w', dispatch run_route run_event run_defer run_fn
          (replicate (length calls) PickFnChan) w = (w', false)
    ∧ (∀ route, routes (actor w') !! route
                = last_write_wins calls (routes (actor w)) route)
    ∧ (∀ route, Scheduler.routes (scheduler w') !! route =
         match last_write calls route with
         | Some _ => Some (Kind (actor w))
         | None => Scheduler.routes (scheduler w) !! route
         end)
    ∧ Chan.buf (fnChan (actor w')) = rest
    ∧ events (actor w') = events (actor w)
    ∧ mailbox (actor w') = mailbox (actor w)
    ∧ state (actor w') = state (actor w)
    ∧ Scheduler.relations (scheduler w') = Scheduler.relations (scheduler w).
Proof.
  intros Hb.
  destruct (registrations_run run_route run_event run_defer run_fn calls rest w Hb)
    as (w' & Hd & Hr & Hsr & Hf & _ & He & Hm & Hst & Hrel & _).
  exists w'. split; [exact Hd|]. split.
  { intros route. rewrite Hr. apply foldl_write_route_lookup. }
  split.
  { intros route. rewrite Hsr. apply foldl_publish_route_lookup. }
  by repeat (split; [assumption|]).
Qed.

Lemma registrations_applied_in_order_witness :
  ∃ w', dispatch idle_handler idle_handler idle_defer idle_fn
          [PickFnChan; PickFnChan; PickFnChan]
          (fst (AddRouteHandlers [(10, 1%nat); (20, 2%nat); (10, 3%nat)] world5))
        = (w', false)
    ∧ routes (actor w') !! 10 = Some 3%nat
    ∧ routes (actor w') !! 20 = Some 2%nat
    ∧ routes (actor w') !! 0 = Some 5%nat
    ∧ Scheduler.routes (scheduler w') !! 10 = Some "room"
    ∧ Scheduler.routes (scheduler w') !! 0 = None
    ∧ Chan.buf (fnChan (actor w')) = [].
Proof.
  destruct (registrations_applied_in_order idle_handler idle_handler idle_defer
              idle_fn [(10, 1%nat); (20, 2%nat); (10, 3%nat)] []
              (fst (AddRouteHandlers [(10, 1%nat); (20, 2%nat); (10, 3%nat)] world5))
              eq_refl)
    as (w' & Hd & Hr & Hsr & Hf & _).
  exists w'. split; [exact Hd|].
  rewrite !Hr, !Hsr. split; [by vm_compute|]. split; [by vm_compute|].
  split; [by vm_compute|]. split; [by vm_compute|]. split; [by vm_compute|].
  exact Hf.
Defined.
